(** * The ranking core of [scripts/core.py]

    A shallow embedding of the search core of the UI/UX knowledge base:
    the tokenizer, the BM25 index, the exact-match booster, the result
    merger, the keyword domain classifier and the two search entry points.

    Conventions of the embedding.
    - Python [str] values are Rocq [string]s restricted to ASCII: case
      folding and the classes [\w] and [\s] are the ASCII ones.
    - Python [float]s are the real numbers they approximate; [int]
      operands enter real arithmetic through [INR] and [IZR].
    - A Python exception is a [Raise] value of the [result] monad.
    - A Python [dict] is an association list in insertion order. *)

From Stdlib Require Import String Ascii List Bool Arith ZArith Lia.
From Stdlib Require Import Permutation Sorted.
From Stdlib Require Import Reals Lra.
Import ListNotations.

Open Scope string_scope.
Open Scope list_scope.
Open Scope nat_scope.

(* ================================================================== *)
(** * Python text primitives (ASCII) *)

Module Text.

Definition code (c : ascii) : nat := nat_of_ascii c.

Definition between (lo hi : nat) (c : ascii) : bool :=
  (lo <=? code c) && (code c <=? hi).

Definition isupper (c : ascii) : bool := between 65 90 c.
Definition islower (c : ascii) : bool := between 97 122 c.
Definition isdigit (c : ascii) : bool := between 48 57 c.

(** [\w] : letters, digits and the underscore. *)
Definition isword (c : ascii) : bool :=
  isupper c || islower c || isdigit c || (code c =? 95).

(** [\s] and the separators of [str.split()] : tab, line feed, vertical
    tab, form feed, carriage return, the four separators 28..31, space. *)
Definition isspace (c : ascii) : bool :=
  between 9 13 c || between 28 31 c || (code c =? 32).

Definition lower_char (c : ascii) : ascii :=
  if isupper c then ascii_of_nat (code c + 32) else c.

Fixpoint smap (f : ascii -> ascii) (s : string) : string :=
  match s with
  | EmptyString => EmptyString
  | String c s' => String (f c) (smap f s')
  end.

(** [str.lower()] *)
Definition lower (s : string) : string := smap lower_char s.

(** [re.sub(r'[^\w\s]', ' ', s)] *)
Definition sub_nonword (s : string) : string :=
  smap (fun c => if isword c || isspace c then c else " "%char) s.

Definition flush (cur : string) : list string :=
  match cur with EmptyString => [] | _ => [cur] end.

(** [str.split()] : maximal runs of non-whitespace characters; [cur] is
    the run being read. *)
Fixpoint split_from (cur : string) (s : string) : list string :=
  match s with
  | EmptyString => flush cur
  | String c s' =>
      if isspace c then flush cur ++ split_from EmptyString s'
      else split_from (cur ++ String c EmptyString) s'
  end.

Definition split (s : string) : list string := split_from EmptyString s.

(** [needle in hay] on strings. *)
Fixpoint contains (needle hay : string) : bool :=
  if prefix needle hay then true
  else match hay with
       | EmptyString => false
       | String _ hay' => contains needle hay'
       end.

(** [sep.join(parts)] *)
Definition join (sep : string) (parts : list string) : string :=
  String.concat sep parts.

Fixpoint all_chars (p : ascii -> bool) (s : string) : bool :=
  match s with
  | EmptyString => true
  | String c s' => p c && all_chars p s'
  end.

(** A token character: a lowercase letter, a digit or the underscore. *)
Definition istoken (c : ascii) : bool := isword c && negb (isupper c).

End Text.

(* ================================================================== *)
(** * Exceptions *)

Inductive exn : Type :=
| ZeroDivisionError
| ValueError
| IndexError.

Inductive result (A : Type) : Type :=
| Ok (a : A)
| Raise (e : exn).

Arguments Ok {A} a.
Arguments Raise {A} e.

Definition bind {A B : Type} (m : result A) (k : A -> result B) : result B :=
  match m with
  | Ok a => k a
  | Raise e => Raise e
  end.

Notation "x <- m ;; k" := (bind m (fun x => k))
  (at level 61, m at next level, right associativity).

(** A loop whose body may raise. *)
Fixpoint foldM {A S : Type} (f : S -> A -> result S) (l : list A) (s : S)
  : result S :=
  match l with
  | [] => Ok s
  | x :: l' => s' <- f s x ;; foldM f l' s'
  end.

Fixpoint mapM {A B : Type} (f : A -> result B) (l : list A) : result (list B) :=
  match l with
  | [] => Ok []
  | x :: l' => y <- f x ;; ys <- mapM f l' ;; Ok (y :: ys)
  end.

(* ================================================================== *)
(** * Dictionaries in insertion order *)

Module Dict.

Section WithValue.
Context {V : Type}.

Definition t := list (string * V).

Fixpoint get (d : t) (k : string) : option V :=
  match d with
  | [] => None
  | (k', v) :: d' => if String.eqb k' k then Some v else get d' k
  end.

Definition mem (d : t) (k : string) : bool :=
  match get d k with Some _ => true | None => false end.

(** [d[k] = v] : an existing key keeps its place. *)
Fixpoint set (d : t) (k : string) (v : V) : t :=
  match d with
  | [] => [(k, v)]
  | (k', v') :: d' =>
      if String.eqb k' k then (k', v) :: d' else (k', v') :: set d' k v
  end.

Definition get_or (d : t) (k : string) (dflt : V) : V :=
  match get d k with Some v => v | None => dflt end.

End WithValue.

Arguments t V : clear implicits.

End Dict.

(** Membership in a list of strings, as [word in seen]. *)
Definition mem_str (w : string) (l : list string) : bool :=
  existsb (String.eqb w) l.

Arguments mem_str : simpl never.

(* ================================================================== *)
(** * Python arithmetic that can raise *)

(** [x / y] on floats. *)
Definition py_div (x y : R) : result R :=
  if Req_dec_T y 0 then Raise ZeroDivisionError else Ok (x / y)%R.

(** [math.log(x)] *)
Definition py_log (x : R) : result R :=
  if Rlt_dec 0 x then Ok (ln x) else Raise ValueError.

(** [l[i]] *)
Definition py_index {A : Type} (l : list A) (i : nat) : result A :=
  match nth_error l i with
  | Some a => Ok a
  | None => Raise IndexError
  end.

(** [l[:k]] : a negative bound counts from the end. *)
Definition slice_to {A : Type} (l : list A) (k : Z) : list A :=
  if (0 <=? k)%Z then firstn (Z.to_nat k) l
  else firstn (length l - Z.to_nat (- k)) l.

(** [enumerate(l)] *)
Definition enumerate {A : Type} (l : list A) : list (nat * A) :=
  combine (seq 0 (length l)) l.

(** [sorted(l, key=lambda x: x[1], reverse=True)] : Python's sort is
    stable, also when reversed; the model inserts each element behind the
    strictly larger ones and in front of the elements that followed it
    in [l]. *)
Fixpoint insert_desc (x : nat * R) (l : list (nat * R)) : list (nat * R) :=
  match l with
  | [] => [x]
  | y :: l' =>
      if Rlt_dec (snd x) (snd y) then y :: insert_desc x l' else x :: l
  end.

Definition sort_desc (l : list (nat * R)) : list (nat * R) :=
  fold_right insert_desc [] l.

(* ================================================================== *)
(** * class BM25 *)

Module BM25.

Record t : Type := mk {
  k1 : R;
  b : R;
  corpus : list (list string);
  doc_lengths : list nat;
  avgdl : R;
  idf : Dict.t R;
  doc_freqs : Dict.t nat;
  N : nat
}.

(** [__init__(self, k1=1.5, b=0.75)] *)
Definition init (k1 b : R) : t :=
  {| k1 := k1; b := b; corpus := []; doc_lengths := []; avgdl := 0%R;
     idf := []; doc_freqs := []; N := 0 |}.

(** [BM25()] *)
Definition new : t := init 1.5%R 0.75%R.

(** [tokenize] : lowercase, blank the punctuation, split, keep the words
    longer than two characters. *)
Definition tokenize (text : string) : list string :=
  filter (fun w => 2 <? String.length w)
         (Text.split (Text.sub_nonword (Text.lower text))).

(** [d[word] += 1] on a [defaultdict(int)]. *)
Definition incr (d : Dict.t nat) (word : string) : Dict.t nat :=
  Dict.set d word (Dict.get_or d word 0 + 1).

(** The body of [for doc in self.corpus] in [fit]: every distinct word of
    the document is counted once. The state is the pair of [doc_freqs]
    and the local [seen]. *)
Definition count_word (st : Dict.t nat * list string) (word : string)
  : Dict.t nat * list string :=
  let '(df, seen) := st in
  if mem_str word seen then (df, seen) else (incr df word, word :: seen).

Definition count_doc (df : Dict.t nat) (doc : list string) : Dict.t nat :=
  fst (fold_left count_word doc (df, [])).

(** The body of [for word, freq in self.doc_freqs.items()]. *)
Definition idf_step (n : nat) (idf : Dict.t R) (wf : string * nat)
  : result (Dict.t R) :=
  let '(word, freq) := wf in
  q <- py_div (INR n - INR freq + 0.5)%R (INR freq + 0.5)%R ;;
  v <- py_log (q + 1)%R ;;
  Ok (Dict.set idf word v).

(** [fit(self, documents)] : the object after the call. The statistics
    of an earlier [fit] on the same object are not reset: [doc_freqs] and
    [idf] are updated in place. *)
Definition fit (self : t) (documents : list string) : result t :=
  let corpus' := map tokenize documents in
  let n := length corpus' in
  if n =? 0 then
    Ok {| k1 := k1 self; b := b self; corpus := corpus';
          doc_lengths := doc_lengths self; avgdl := avgdl self;
          idf := idf self; doc_freqs := doc_freqs self; N := n |}
  else
    let lens := map (@length string) corpus' in
    avg <- py_div (INR (list_sum lens)) (INR n) ;;
    let df := fold_left count_doc corpus' (doc_freqs self) in
    idf' <- foldM (idf_step n) df (idf self) ;;
    Ok {| k1 := k1 self; b := b self; corpus := corpus';
          doc_lengths := lens; avgdl := avg;
          idf := idf'; doc_freqs := df; N := n |}.

(** [term_freqs] of one document. *)
Definition term_freqs (doc : list string) : Dict.t nat :=
  fold_left incr doc [].

(** The body of [for token in query_tokens] in [score]. *)
Definition score_token (self : t) (doc_len : nat) (tfs : Dict.t nat)
           (score : R) (token : string) : result R :=
  match Dict.get (idf self) token with
  | None => Ok score
  | Some idf_token =>
      let tf := INR (Dict.get_or tfs token 0) in
      let numerator := (tf * (k1 self + 1))%R in
      r <- py_div (b self * INR doc_len)%R (avgdl self) ;;
      let denominator := (tf + k1 self * (1 - b self + r))%R in
      q <- py_div (idf_token * numerator)%R denominator ;;
      Ok (score + q)%R
  end.

(** The body of [for idx, doc in enumerate(self.corpus)]. *)
Definition score_doc (self : t) (query_tokens : list string)
           (entry : nat * list string) : result (nat * R) :=
  let '(idx, doc) := entry in
  doc_len <- py_index (doc_lengths self) idx ;;
  s <- foldM (score_token self doc_len (term_freqs doc)) query_tokens 0%R ;;
  Ok (idx, s).

(** [score(self, query)] *)
Definition score (self : t) (query : string) : result (list (nat * R)) :=
  let query_tokens := tokenize query in
  scores <- mapM (score_doc self query_tokens) (enumerate (corpus self)) ;;
  Ok (sort_desc scores).

End BM25.

(* ================================================================== *)
(** * Configuration *)

(** A row of a table, as [csv.DictReader] yields it. *)
Definition Row : Type := Dict.t string.

Record Config : Type := {
  file : string;
  search_cols : list string;
  output_cols : list string
}.

Definition MAX_RESULTS : Z := 5.

(** [CSV_CONFIG["style"]] *)
Definition style_config : Config :=
  {| file := "styles.csv";
     search_cols := ["Style Category"; "Keywords"; "Best For"; "Type"];
     output_cols := ["Style Category"; "Type"; "Keywords"; "Primary Colors";
                     "Effects & Animation"; "Best For"; "Performance";
                     "Accessibility"; "Framework Compatibility";
                     "Complexity"] |}.

Definition CSV_CONFIG : Dict.t Config := [
  ("style", style_config);
  ("prompt",
   {| file := "prompts.csv";
      search_cols := ["Style Category"; "AI Prompt Keywords (Copy-Paste Ready)";
                      "CSS/Technical Keywords"];
      output_cols := ["Style Category"; "AI Prompt Keywords (Copy-Paste Ready)";
                      "CSS/Technical Keywords"; "Implementation Checklist"] |});
  ("color",
   {| file := "colors.csv";
      search_cols := ["Product Type"; "Keywords"; "Notes"];
      output_cols := ["Product Type"; "Keywords"; "Primary (Hex)";
                      "Secondary (Hex)"; "CTA (Hex)"; "Background (Hex)";
                      "Text (Hex)"; "Border (Hex)"; "Notes"] |});
  ("chart",
   {| file := "charts.csv";
      search_cols := ["Data Type"; "Keywords"; "Best Chart Type";
                      "Accessibility Notes"];
      output_cols := ["Data Type"; "Keywords"; "Best Chart Type";
                      "Secondary Options"; "Color Guidance";
                      "Accessibility Notes"; "Library Recommendation";
                      "Interactive Level"] |});
  ("landing",
   {| file := "landing.csv";
      search_cols := ["Pattern Name"; "Keywords"; "Conversion Optimization";
                      "Section Order"];
      output_cols := ["Pattern Name"; "Keywords"; "Section Order";
                      "Primary CTA Placement"; "Color Strategy";
                      "Conversion Optimization"] |});
  ("product",
   {| file := "products.csv";
      search_cols := ["Product Type"; "Keywords";
                      "Primary Style Recommendation"; "Key Considerations"];
      output_cols := ["Product Type"; "Keywords";
                      "Primary Style Recommendation"; "Secondary Styles";
                      "Landing Page Pattern"; "Dashboard Style (if applicable)";
                      "Color Palette Focus"] |});
  ("quick",
   {| file := "quick-ref.csv";
      search_cols := ["Style Name"; "Best For"; "Category"];
      output_cols := ["Style Name"; "Type"; "Best For"; "Primary Colors";
                      "Performance"; "Accessibility"; "Mobile";
                      "Dark Mode"] |});
  ("ux",
   {| file := "ux-guidelines.csv";
      search_cols := ["Category"; "Issue"; "Description"; "Platform"];
      output_cols := ["Category"; "Issue"; "Platform"; "Description"; "Do";
                      "Don't"; "Code Example Good"; "Code Example Bad";
                      "Severity"] |});
  ("typography",
   {| file := "typography.csv";
      search_cols := ["Font Pairing Name"; "Category"; "Mood/Style Keywords";
                      "Best For"; "Heading Font"; "Body Font"];
      output_cols := ["Font Pairing Name"; "Category"; "Heading Font";
                      "Body Font"; "Mood/Style Keywords"; "Best For";
                      "Google Fonts URL"; "CSS Import"; "Tailwind Config";
                      "Notes"] |})
].

Definition stack_config (name : string) : Config :=
  {| file := "stacks/" ++ name ++ ".csv";
     search_cols := ["Category"; "Guideline"; "Description"; "Do"; "Don't"];
     output_cols := ["Category"; "Guideline"; "Description"; "Do"; "Don't";
                     "Code Good"; "Code Bad"; "Severity"; "Docs URL"] |}.

(** The eight entries of [STACK_CONFIG] differ in the file name only. *)
Definition STACK_CONFIG : Dict.t Config :=
  map (fun name => (name, stack_config name))
      ["html-tailwind"; "react"; "nextjs"; "vue"; "svelte"; "swiftui";
       "react-native"; "flutter"].

Definition AVAILABLE_STACKS : list string := map fst STACK_CONFIG.

(** The storage the module reads: [DATA_DIR], [Path.exists] and
    [load_csv], taken on files that load. The entry points over a
    loader that can raise are [search_domain_io], [search_io] and
    [search_stack_io] below. *)
Record Storage : Type := {
  DATA_DIR : string;
  exists_ : string -> bool;
  load_csv : string -> list Row
}.

(** [DATA_DIR / name] *)
Definition path (fs : Storage) (name : string) : string :=
  DATA_DIR fs ++ "/" ++ name.

(* ================================================================== *)
(** * Utility functions *)

(** [re.compile(re.escape(query), re.IGNORECASE).search(value)] : the
    query occurs in the value, letter case apart. *)
Definition pattern_search (query value : string) : bool :=
  Text.contains (Text.lower query) (Text.lower value).

(** The inner loop of [regex_search] : some search column of the row
    matches; the scan of the row stops at the first one. *)
Definition row_matches (query : string) (search_cols : list string)
           (row : Row) : bool :=
  existsb (fun col => Dict.mem row col
                      && pattern_search query (Dict.get_or row col ""))
          search_cols.

Definition regex_search (data : list Row) (query : string)
           (search_cols : list string) : list (nat * R) :=
  flat_map (fun entry : nat * Row =>
              if row_matches query search_cols (snd entry)
              then [(fst entry, 100%R)] else [])
           (enumerate data).

Definition domain_keywords : Dict.t (list string) := [
  ("color", ["color"; "palette"; "hex"; "#"; "rgb"; "financial"; "sales";
             "marketing"; "healthcare"; "it"; "devops"; "hr"]);
  ("chart", ["chart"; "graph"; "visualization"; "trend"; "bar"; "pie";
             "scatter"; "heatmap"; "funnel"; "gauge"; "line"]);
  ("landing", ["landing"; "page"; "cta"; "conversion"; "hero"; "testimonial";
               "form"; "pricing"; "section"]);
  ("product", ["saas"; "ecommerce"; "e-commerce"; "fintech"; "healthcare";
               "gaming"; "portfolio"; "agency"; "crypto"; "social";
               "productivity"]);
  ("prompt", ["prompt"; "css"; "implementation"; "variable"; "checklist";
              "code"; "tailwind"; "styled"]);
  ("quick", ["quick"; "summary"; "overview"; "all styles"; "list"; "compare"]);
  ("style", ["style"; "design"; "ui"; "minimalism"; "glassmorphism";
             "neumorphism"; "brutalism"; "dark mode"; "flat"; "3d"; "aurora";
             "retro"]);
  ("ux", ["ux"; "user experience"; "usability"; "accessibility"; "wcag";
          "touch"; "scroll"; "animation"; "focus"; "keyboard";
          "screen reader"; "loading"; "error"; "validation"; "feedback";
          "navigation"; "mobile"; "responsive"; "performance"; "z-index";
          "overflow"])
].

(** The two loops of [detect_domain] : every domain starts at 0 and gains
    one point per keyword that occurs in the lowercased query. *)
Definition keyword_scores (table : Dict.t (list string)) (query_lower : string)
  : Dict.t nat :=
  map (fun entry : string * list string =>
         (fst entry,
          fold_left (fun n keyword =>
                       if Text.contains keyword query_lower then n + 1 else n)
                    (snd entry) 0))
      table.

(** [max(scores, key=scores.get)] : the first key that reaches the
    maximum. *)
Fixpoint max_from (best : string * nat) (l : Dict.t nat) : string * nat :=
  match l with
  | [] => best
  | x :: l' => if snd best <? snd x then max_from x l' else max_from best l'
  end.

Definition max_key (scores : Dict.t nat) : result (string * nat) :=
  match scores with
  | [] => Raise ValueError
  | x :: l => Ok (max_from x l)
  end.

Definition detect_domain (query : string) : result string :=
  let query_lower := Text.lower query in
  let scores := keyword_scores domain_keywords query_lower in
  best <- max_key scores ;;
  Ok (if 0 <? snd best then fst best else "style").

(* ================================================================== *)
(** * Search *)

Definition mem_nat (n : nat) (l : list nat) : bool := existsb (Nat.eqb n) l.

(** The state of the two merge loops: the set [seen] and the list
    [merged]. *)
Definition MergeState : Type := (list nat * list (nat * R))%type.

(** The body of [for idx, score in regex_results]. *)
Definition admit_regex (st : MergeState) (hit : nat * R) : MergeState :=
  let '(seen, merged) := st in
  let '(idx, score) := hit in
  if mem_nat idx seen then st
  else (idx :: seen, merged ++ [(idx, (score + 50)%R)]).

(** [score > 0] *)
Definition is_positive (score : R) : bool :=
  if Rlt_dec 0 score then true else false.

(** The body of [for idx, score in bm25_results]. *)
Definition admit_bm25 (st : MergeState) (hit : nat * R) : MergeState :=
  let '(seen, merged) := st in
  let '(idx, score) := hit in
  if negb (mem_nat idx seen) && is_positive score
  then (idx :: seen, merged ++ [(idx, score)])
  else st.

(** [merged] after both loops and the sort. *)
Definition merge (regex_results bm25_results : list (nat * R))
  : list (nat * R) :=
  let st := fold_left admit_regex regex_results ([], []) in
  let st := fold_left admit_bm25 bm25_results st in
  sort_desc (snd st).

(** [{col: row.get(col, "") for col in output_cols if col in row}] *)
Definition project (output_cols : list string) (row : Row) : Row :=
  fold_left (fun d col =>
               if Dict.mem row col then Dict.set d col (Dict.get_or row col "")
               else d)
            output_cols [].

(** [" ".join(str(row.get(col, "")) for col in search_cols)] *)
Definition doc_text (search_cols : list string) (row : Row) : string :=
  Text.join " " (map (fun col => Dict.get_or row col "") search_cols).

(** The rows of [merged], best first, before the cut to [max_results]. *)
Definition ranked (data : list Row) (search_cols : list string)
           (query : string) : result (list (nat * R)) :=
  let documents := map (doc_text search_cols) data in
  bm25 <- BM25.fit BM25.new documents ;;
  bm25_results <- BM25.score bm25 query ;;
  let regex_results := regex_search data query search_cols in
  Ok (merge regex_results bm25_results).

(** The part that [search_domain] and [search_stack] have in common, from
    [documents = []] to the list [results]. *)
Definition search_rows (data : list Row) (search_cols output_cols : list string)
           (query : string) (max_results : Z) : result (list Row) :=
  merged <- ranked data search_cols query ;;
  let top_indices := map fst (slice_to merged max_results) in
  mapM (fun idx => row <- py_index data idx ;; Ok (project output_cols row))
       top_indices.

Definition search_domain (fs : Storage) (query domain : string)
           (max_results : Z) : result (list Row) :=
  match Dict.get CSV_CONFIG domain with
  | None => Ok []
  | Some config =>
      let filepath := path fs (file config) in
      if negb (exists_ fs filepath) then Ok []
      else search_rows (load_csv fs filepath) (search_cols config)
                       (output_cols config) query max_results
  end.

(** The values of the dictionaries that [search] and [search_stack]
    return. *)
Inductive value : Type :=
| Str (s : string)
| Int (n : nat)
| Rows (rows : list Row).

Definition Reply : Type := Dict.t value.

Definition search (fs : Storage) (query : string) (domain : option string)
           (max_results : Z) : result Reply :=
  domain <- match domain with
            | None => detect_domain query
            | Some d => Ok d
            end ;;
  let config := Dict.get_or CSV_CONFIG domain style_config in
  let filepath := path fs (file config) in
  if negb (exists_ fs filepath) then
    Ok [("error", Str ("File not found: " ++ filepath));
        ("domain", Str domain)]
  else
    results <- search_domain fs query domain max_results ;;
    Ok [("domain", Str domain);
        ("query", Str query);
        ("file", Str (file config));
        ("count", Int (length results));
        ("results", Rows results)].

Definition search_stack (fs : Storage) (query stack : string)
           (max_results : Z) : result Reply :=
  match Dict.get STACK_CONFIG stack with
  | None =>
      Ok [("error", Str ("Unknown stack: " ++ stack ++ ". Available: "
                         ++ Text.join ", " AVAILABLE_STACKS))]
  | Some config =>
      let filepath := path fs (file config) in
      if negb (exists_ fs filepath) then
        Ok [("error", Str ("Stack file not found: " ++ filepath));
            ("stack", Str stack)]
      else
        results <- search_rows (load_csv fs filepath) (search_cols config)
                               (output_cols config) query max_results ;;
        Ok [("domain", Str "stack");
            ("stack", Str stack);
            ("query", Str query);
            ("file", Str (file config));
            ("count", Int (length results));
            ("results", Rows results)]
  end.

(* ================================================================== *)
(** * Order of a ranked list *)

(** [before x y l] : some occurrence of [x] in [l] has an occurrence of
    [y] behind it. *)
Inductive before {A : Type} (x y : A) : list A -> Prop :=
| before_here : forall l, In y l -> before x y (x :: l)
| before_later : forall z l, before x y l -> before x y (z :: l).

(** Score descending, and position ascending among equal scores. *)
Definition ranks_before (x y : nat * R) : Prop :=
  (snd y < snd x)%R \/ (snd x = snd y /\ fst x < fst y).

(** Score descending. *)
Definition score_ge (x y : nat * R) : Prop := (snd y <= snd x)%R.

(* ================================================================== *)
(** * The entry points over a loader that can raise *)

(** What [open] and [csv.DictReader] can raise in [load_csv]: the file
    cannot be opened or read, it is not UTF-8, or it is no well-formed
    CSV. *)
Inductive load_exn : Type :=
| OSError
| UnicodeDecodeError
| CsvError.

(** The outcome of an entry point: a value, an exception of the ranking
    code, or an exception of [load_csv], which no caller catches. *)
Inductive outcome (A : Type) : Type :=
| Returns (a : A)
| Raises (e : exn)
| LoadRaises (e : load_exn).

Arguments Returns {A} a.
Arguments Raises {A} e.
Arguments LoadRaises {A} e.

Definition of_result {A : Type} (r : result A) : outcome A :=
  match r with
  | Ok a => Returns a
  | Raise e => Raises e
  end.

(** The files as the module finds them: [read_csv] is [load_csv] with
    its exceptions. *)
Record Files : Type := {
  files_dir : string;
  file_exists : string -> bool;
  read_csv : string -> load_exn + list Row
}.

Definition files_path (fs : Files) (name : string) : string :=
  files_dir fs ++ "/" ++ name.

(** [search_domain], with [load_csv] as it is. *)
Definition search_domain_io (fs : Files) (query domain : string)
           (max_results : Z) : outcome (list Row) :=
  match Dict.get CSV_CONFIG domain with
  | None => Returns []
  | Some config =>
      let filepath := files_path fs (file config) in
      if negb (file_exists fs filepath) then Returns []
      else match read_csv fs filepath with
           | inl e => LoadRaises e
           | inr data =>
               of_result (search_rows data (search_cols config)
                                      (output_cols config) query max_results)
           end
  end.

(** [search], with [load_csv] as it is. *)
Definition search_io (fs : Files) (query : string) (domain : option string)
           (max_results : Z) : outcome Reply :=
  match match domain with
        | None => detect_domain query
        | Some d => Ok d
        end with
  | Raise e => Raises e
  | Ok domain =>
      let config := Dict.get_or CSV_CONFIG domain style_config in
      let filepath := files_path fs (file config) in
      if negb (file_exists fs filepath) then
        Returns [("error", Str ("File not found: " ++ filepath));
                 ("domain", Str domain)]
      else
        match search_domain_io fs query domain max_results with
        | Returns results =>
            Returns [("domain", Str domain);
                     ("query", Str query);
                     ("file", Str (file config));
                     ("count", Int (length results));
                     ("results", Rows results)]
        | Raises e => Raises e
        | LoadRaises e => LoadRaises e
        end
  end.

(** [search_stack], with [load_csv] as it is. *)
Definition search_stack_io (fs : Files) (query stack : string)
           (max_results : Z) : outcome Reply :=
  match Dict.get STACK_CONFIG stack with
  | None =>
      Returns [("error", Str ("Unknown stack: " ++ stack ++ ". Available: "
                              ++ Text.join ", " AVAILABLE_STACKS))]
  | Some config =>
      let filepath := files_path fs (file config) in
      if negb (file_exists fs filepath) then
        Returns [("error", Str ("Stack file not found: " ++ filepath));
                 ("stack", Str stack)]
      else
        match read_csv fs filepath with
        | inl e => LoadRaises e
        | inr data =>
            match search_rows data (search_cols config) (output_cols config)
                              query max_results with
            | Ok results =>
                Returns [("domain", Str "stack");
                         ("stack", Str stack);
                         ("query", Str query);
                         ("file", Str (file config));
                         ("count", Int (length results));
                         ("results", Rows results)]
            | Raise e => Raises e
            end
        end
  end.

(* ================================================================== *)
(** * Reference quantities

    The textbook quantities that the statistics of the index are compared
    with. *)

(** The number of documents of the corpus that contain the word. *)
Definition df_count (corpus : list (list string)) (w : string) : nat :=
  length (filter (mem_str w) corpus).

(** The number of occurrences of the word in the document. *)
Definition tf_count (doc : list string) (w : string) : nat :=
  count_occ string_dec doc w.

(** [ln((N - df + 0.5) / (df + 0.5) + 1)] *)
Definition idf_value (n freq : nat) : R :=
  ln ((INR n - INR freq + 0.5) / (INR freq + 0.5) + 1)%R.

(** The idf table after the loop over [doc_freqs.items()], were no
    step to raise. *)
Definition idf_update (n : nat) (idf : Dict.t R) (df : Dict.t nat)
  : Dict.t R :=
  fold_left (fun idf wf => Dict.set idf (fst wf) (idf_value n (snd wf)))
            df idf.

(** [idf * (tf * (k1 + 1)) / (tf + k1 * (1 - b + b * doc_len / avgdl))] *)
Definition term_score (k1 b avgdl idf : R) (tf doc_len : nat) : R :=
  (idf * (INR tf * (k1 + 1))
   / (INR tf + k1 * (1 - b + b * INR doc_len / avgdl)))%R.

(** What one query token adds to the score of a document. *)
Definition contribution (bm : BM25.t) (doc : list string) (token : string)
  : R :=
  match Dict.get (BM25.idf bm) token with
  | None => 0%R
  | Some idf_token =>
      term_score (BM25.k1 bm) (BM25.b bm) (BM25.avgdl bm) idf_token
                 (tf_count doc token) (length doc)
  end.

(** The BM25 score of a document: the sum over the query tokens, in
    order, repeated tokens counted again. *)
Definition doc_score (bm : BM25.t) (query_tokens : list string)
           (doc : list string) : R :=
  fold_left (fun s token => (s + contribution bm doc token)%R)
            query_tokens 0%R.

(** The pairs (position, score) in corpus order, before the sort. *)
Definition scores_of (bm : BM25.t) (query : string) : list (nat * R) :=
  combine (seq 0 (length (BM25.corpus bm)))
          (map (doc_score bm (BM25.tokenize query)) (BM25.corpus bm)).

(** The statistics of an index built from nothing but [documents]. *)
Record fresh_index (documents : list string) (bm : BM25.t) : Prop := {
  fresh_k1 : BM25.k1 bm = 1.5%R;
  fresh_b : BM25.b bm = 0.75%R;
  fresh_corpus : BM25.corpus bm = map BM25.tokenize documents;
  fresh_N : BM25.N bm = length documents;
  fresh_lengths :
    BM25.doc_lengths bm = map (@length string) (BM25.corpus bm);
  fresh_avgdl :
    BM25.avgdl bm
    = if BM25.N bm =? 0 then 0%R
      else (INR (list_sum (BM25.doc_lengths bm)) / INR (BM25.N bm))%R;
  fresh_df :
    forall w, Dict.get_or (BM25.doc_freqs bm) w 0
              = df_count (BM25.corpus bm) w;
  fresh_idf :
    forall w, Dict.get (BM25.idf bm) w
              = if 0 <? df_count (BM25.corpus bm) w
                then Some (idf_value (BM25.N bm)
                                     (df_count (BM25.corpus bm) w))
                else None
}.

(** An exact match as the first merge loop stores it. *)
Definition boost (hit : nat * R) : nat * R := (fst hit, (snd hit + 50)%R).

(** The test of the second merge loop against the positions of the exact
    matches. *)
Definition admitted (exact : list nat) (hit : nat * R) : bool :=
  negb (mem_nat (fst hit) exact) && is_positive (snd hit).

(** The row at a position matches the query literally. *)
Definition exact_at (data : list Row) (query : string)
           (search_cols : list string) (idx : nat) : bool :=
  match nth_error data idx with
  | Some row => row_matches query search_cols row
  | None => false
  end.

(** The table of the end-to-end example: three rows, one column. *)
Definition retro_table : list Row :=
  [[("Name", "Neon Glow")]; [("Name", "Retro Wave")];
   [("Name", "Minimalist Clean")]].

(** A style table of two rows, and a storage that holds it under every
    name. *)
Definition style_rows : list Row :=
  [[("Style Category", "Retro Wave"); ("Type", "General");
    ("Keywords", "neon, retro, synthwave"); ("Best For", "Games")];
   [("Style Category", "Minimalism"); ("Type", "General");
    ("Keywords", "clean, simple"); ("Best For", "Dashboards")]].

Definition demo_storage : Storage :=
  {| DATA_DIR := "data";
     exists_ := fun _ => true;
     load_csv := fun _ => style_rows |}.

(** A query of 65 times the word foo, and a table of seven rows: the
    first holds the query literally, the second holds the same 65 words
    separated by commas, hence no literal match, the others are blank. *)
Definition foo_query : string :=
  Eval vm_compute in String.concat " " (repeat "foo" 65).

Definition foo_commas : string :=
  Eval vm_compute in String.concat "," (repeat "foo" 65).

Definition foo_table : list Row :=
  [[("Name", foo_query)]; [("Name", foo_commas)]; [("Name", "")];
   [("Name", "")]; [("Name", "")]; [("Name", "")]; [("Name", "")]].

(** The row with every value in lower case. *)
Definition lower_row (row : Row) : Row :=
  map (fun kv => (fst kv, Text.lower (snd kv))) row.

(** A table of two rows for the query retro wave: the first row holds
    it literally, the second holds its two words in another order. *)
Definition wave_table : list Row :=
  [[("Name", "Retro Wave")]; [("Name", "Wave of Retro")]].

(** Files of which the one named [broken] cannot be decoded and every
    other one holds [style_rows]. *)
Definition demo_files (broken : string) : Files :=
  {| files_dir := "data";
     file_exists := fun _ => true;
     read_csv := fun p => if String.eqb p ("data/" ++ broken)
                          then inl UnicodeDecodeError else inr style_rows |}.

(** The files of a storage whose tables all load. *)
Definition files_of (fs : Storage) : Files :=
  {| files_dir := DATA_DIR fs;
     file_exists := exists_ fs;
     read_csv := fun p => inr (load_csv fs p) |}.

(** [int(x)] of a truth value. *)
Definition b2n (x : bool) : nat := if x then 1 else 0.

(** The keys of a dictionary. *)
Definition keys {V : Type} (d : Dict.t V) : list string := map fst d.

(* ================================================================== *)
(** * Facts about the text primitives *)

Section TextFacts.

Import Text.

Lemma lower_char_not_upper (c : ascii) : isupper (lower_char c) = false.
Proof. destruct c as [[] [] [] [] [] [] [] []]; reflexivity. Qed.

Lemma lower_char_word (c : ascii) : isword (lower_char c) = isword c.
Proof. destruct c as [[] [] [] [] [] [] [] []]; reflexivity. Qed.

Lemma all_chars_app (p : ascii -> bool) (s1 s2 : string) :
  all_chars p (s1 ++ s2) = all_chars p s1 && all_chars p s2.
Proof.
  induction s1 as [|c s1 IH]; simpl; [reflexivity|].
  now rewrite IH, andb_assoc.
Qed.

Lemma all_chars_smap (p : ascii -> bool) (f : ascii -> ascii) (s : string) :
  (forall c, p (f c) = true) -> all_chars p (smap f s) = true.
Proof.
  intros H. induction s as [|c s IH]; simpl; [reflexivity|].
  now rewrite H, IH.
Qed.

(** The words that [split] returns are made of the characters of the
    text that are not separators. *)
Lemma split_from_chars (p : ascii -> bool) (s cur w : string) :
  all_chars (fun c => isspace c || p c) s = true ->
  all_chars p cur = true ->
  In w (split_from cur s) ->
  all_chars p w = true /\ w <> EmptyString.
Proof.
  revert cur. induction s as [|c s IH]; simpl; intros cur Hs Hcur Hin.
  - destruct cur; simpl in Hin; [contradiction|].
    destruct Hin as [<-|[]]. split; [assumption|discriminate].
  - apply andb_prop in Hs. destruct Hs as [Hc Hs].
    destruct (isspace c) eqn:Esp.
    + apply in_app_or in Hin. destruct Hin as [Hin|Hin].
      * destruct cur; simpl in Hin; [contradiction|].
        destruct Hin as [<-|[]]. split; [assumption|discriminate].
      * apply (IH EmptyString); auto.
    + apply (IH (cur ++ String c EmptyString)%string); auto.
      rewrite all_chars_app, Hcur. simpl in *. now rewrite Hc.
Qed.

Lemma sub_nonword_lower_chars (c : ascii) :
  let c' := lower_char c in
  let c'' := if isword c' || isspace c' then c' else " "%char in
  isspace c'' || istoken c'' = true.
Proof. destruct c as [[] [] [] [] [] [] [] []]; reflexivity. Qed.

Lemma tokenize_chars (text w : string) :
  In w (BM25.tokenize text) ->
  2 < String.length w /\ all_chars istoken w = true.
Proof.
  unfold BM25.tokenize. intros Hin. apply filter_In in Hin.
  destruct Hin as [Hin Hlen]. apply Nat.ltb_lt in Hlen. split; [exact Hlen|].
  unfold split in Hin.
  apply (split_from_chars istoken) in Hin; [tauto| |reflexivity].
  unfold sub_nonword, lower. generalize text. clear.
  induction text as [|c s IH]; simpl; [reflexivity|].
  rewrite IH, andb_true_r. apply sub_nonword_lower_chars.
Qed.

End TextFacts.

(** C7. The tokenizer is a total function: it lowercases the text, turns
    every character that is not a letter, a digit, an underscore or white
    space into a space, splits at white space and keeps the words longer
    than two characters. Every token is longer than two characters and is
    made of lowercase letters, digits and underscores only; the text
    "Glass-Morphism UI!! v2" yields the tokens glass and morphism, and
    the empty text yields no token. *)
Theorem tokenize_spec :
  (forall text,
      BM25.tokenize text
      = filter (fun w => 2 <? String.length w)
               (Text.split (Text.sub_nonword (Text.lower text))))
  /\ (forall text w,
         In w (BM25.tokenize text) ->
         2 < String.length w /\ Text.all_chars Text.istoken w = true)
  /\ BM25.tokenize "Glass-Morphism UI!! v2" = ["glass"; "morphism"]
  /\ BM25.tokenize "" = [].
Proof.
  split; [reflexivity|]. split; [apply tokenize_chars|].
  split; reflexivity.
Qed.

(** The claim of [tokenize_spec] at the text "A_b-2 xy" and its only
    token. *)
Lemma tokenize_spec_witness :
  In "a_b" (BM25.tokenize "A_b-2 xy")
  /\ 2 < String.length "a_b" /\ Text.all_chars Text.istoken "a_b" = true.
Proof.
  assert (H : In "a_b" (BM25.tokenize "A_b-2 xy")) by (vm_compute; auto).
  split; [exact H|].
  exact (proj1 (proj2 tokenize_spec) "A_b-2 xy" "a_b" H).
Defined.

(** C3, as the code has it. The query "dark mode toggle accessibility"
    classifies to the color domain: color (its keyword it occurs inside
    accessibility), style (dark mode) and ux (accessibility) reach one
    keyword each, every other domain none, and the first domain of the
    table that reaches the maximum wins. *)
Theorem detect_domain_dark_mode :
  keyword_scores domain_keywords (Text.lower "dark mode toggle accessibility")
  = [("color", 1); ("chart", 0); ("landing", 0); ("product", 0);
     ("prompt", 0); ("quick", 0); ("style", 1); ("ux", 1)]
  /\ detect_domain "dark mode toggle accessibility" = Ok "color".
Proof. split; reflexivity. Qed.

(** C3, as stated, fails: the query does not classify to ux. *)
Lemma detect_domain_dark_mode_not_ux :
  detect_domain "dark mode toggle accessibility" <> Ok "ux".
Proof. vm_compute. discriminate. Qed.

(* ================================================================== *)
(** * Facts about the sort *)

Section SortFacts.

Local Open Scope R_scope.

Lemma insert_desc_perm (x : nat * R) (l : list (nat * R)) :
  Permutation (insert_desc x l) (x :: l).
Proof.
  induction l as [|y l IH]; simpl; [reflexivity|].
  destruct (Rlt_dec (snd x) (snd y)); [|reflexivity].
  rewrite IH. apply perm_swap.
Qed.

Lemma sort_desc_perm (l : list (nat * R)) : Permutation (sort_desc l) l.
Proof.
  induction l as [|x l IH]; simpl; [reflexivity|].
  rewrite insert_desc_perm. now constructor.
Qed.

Lemma sort_desc_in (x : nat * R) (l : list (nat * R)) :
  In x (sort_desc l) <-> In x l.
Proof.
  split; apply Permutation_in;
    [apply sort_desc_perm | symmetry; apply sort_desc_perm].
Qed.

Lemma sort_desc_length (l : list (nat * R)) :
  length (sort_desc l) = length l.
Proof. apply Permutation_length, sort_desc_perm. Qed.

Lemma insert_desc_sorted (x : nat * R) (l : list (nat * R)) :
  StronglySorted score_ge l -> StronglySorted score_ge (insert_desc x l).
Proof.
  induction 1 as [|y l Hs IH Hy]; simpl.
  - repeat constructor.
  - destruct (Rlt_dec (snd x) (snd y)) as [Hlt|Hge].
    + constructor; [exact IH|].
      eapply Permutation_Forall; [symmetry; apply insert_desc_perm|].
      constructor; [unfold score_ge; lra | exact Hy].
    + constructor; [now constructor|].
      constructor; [unfold score_ge; lra|].
      eapply Forall_impl; [|exact Hy]. unfold score_ge. intros z Hz. lra.
Qed.

Lemma sort_desc_sorted (l : list (nat * R)) :
  StronglySorted score_ge (sort_desc l).
Proof.
  induction l as [|x l IH]; simpl; [constructor|].
  now apply insert_desc_sorted.
Qed.

(** An element that enters in front of a list whose positions are all
    larger keeps in front of its equals. *)
Lemma insert_desc_ranks (x : nat * R) (l : list (nat * R)) :
  Forall (fun y => fst x < fst y)%nat l ->
  StronglySorted ranks_before l ->
  StronglySorted ranks_before (insert_desc x l).
Proof.
  intros Hx Hs. induction Hs as [|y l Hs IH Hy]; simpl.
  - repeat constructor.
  - inversion Hx as [|? ? Hxy Hxl]; subst.
    destruct (Rlt_dec (snd x) (snd y)) as [Hlt|Hge].
    + constructor; [now apply IH|].
      eapply Permutation_Forall; [symmetry; apply insert_desc_perm|].
      constructor; [now left | exact Hy].
    + constructor; [now constructor|].
      assert (Hxy' : ranks_before x y).
      { destruct (Rlt_dec (snd y) (snd x)); [now left|].
        right. split; [lra | exact Hxy]. }
      constructor; [exact Hxy'|].
      rewrite Forall_forall in *. intros z Hz.
      specialize (Hy z Hz). specialize (Hxl z Hz).
      unfold ranks_before in *.
      destruct (Rlt_dec (snd z) (snd x)); [now left|].
      right. split; [|exact Hxl].
      destruct Hy as [Hy|[Hy _]]; destruct Hxy' as [H1|[H1 _]]; lra.
Qed.

Lemma sort_desc_ranks (l : list (nat * R)) :
  StronglySorted lt (map fst l) ->
  StronglySorted ranks_before (sort_desc l).
Proof.
  induction l as [|x l IH]; simpl; intros Hs; [constructor|].
  inversion Hs as [|? ? Hl Hx]; subst.
  apply insert_desc_ranks; [|now apply IH].
  eapply Permutation_Forall; [symmetry; apply sort_desc_perm|].
  rewrite Forall_forall in *. intros y Hy. apply Hx. now apply in_map.
Qed.

Lemma before_in {A : Type} (x y : A) (l : list A) :
  before x y l -> In x l /\ In y l.
Proof.
  induction 1 as [l Hy|z l Hb [IHx IHy]]; simpl; auto.
Qed.

Lemma before_app_r {A : Type} (x y : A) (l1 l2 : list A) :
  In x l1 -> In y l2 -> before x y (l1 ++ l2).
Proof.
  induction l1 as [|z l1 IH]; simpl; intros Hx Hy; [contradiction|].
  destruct Hx as [->|Hx].
  - apply before_here, in_or_app. now right.
  - apply before_later. now apply IH.
Qed.

Lemma before_app_l {A : Type} (x y : A) (l1 l2 : list A) :
  before x y l1 -> before x y (l1 ++ l2).
Proof.
  induction 1 as [l Hy|z l Hb IH]; simpl.
  - apply before_here, in_or_app. now left.
  - now apply before_later.
Qed.

Lemma insert_desc_before (z x y : nat * R) (l : list (nat * R)) :
  before x y l -> before x y (insert_desc z l).
Proof.
  induction 1 as [l Hy|h l Hb IH]; simpl.
  - destruct (Rlt_dec (snd z) (snd x)).
    + apply before_here.
      apply (Permutation_in _ (Permutation_sym (insert_desc_perm z l))).
      now right.
    + now apply before_later, before_here.
  - destruct (Rlt_dec (snd z) (snd h)).
    + now apply before_later.
    + now apply before_later, before_later.
Qed.

Lemma insert_desc_front (x y : nat * R) (l : list (nat * R)) :
  In y l -> snd y <= snd x -> before x y (insert_desc x l).
Proof.
  induction l as [|h l IH]; simpl; intros Hy Hle; [contradiction|].
  destruct (Rlt_dec (snd x) (snd h)) as [Hlt|Hge].
  - apply before_later. apply IH; [|exact Hle].
    destruct Hy as [->|Hy]; [lra | exact Hy].
  - now apply before_here.
Qed.

(** The sort is stable: an element stays in front of a later one that
    does not beat it. *)
Lemma sort_desc_stable (x y : nat * R) (l : list (nat * R)) :
  before x y l -> snd y <= snd x -> before x y (sort_desc l).
Proof.
  induction 1 as [l Hy|z l Hb IH]; simpl; intros Hle.
  - apply insert_desc_front; [|exact Hle]. now apply sort_desc_in.
  - now apply insert_desc_before, IH.
Qed.

(** The sort moves a strictly better element to the front. *)
Lemma sort_desc_better (x y : nat * R) (l : list (nat * R)) :
  In x l -> In y l -> snd y < snd x -> before x y (sort_desc l).
Proof.
  induction l as [|z l IH]; simpl; intros Hx Hy Hlt; [contradiction|].
  destruct Hx as [->|Hx].
  - destruct Hy as [->|Hy]; [lra|].
    apply insert_desc_front; [now apply sort_desc_in | lra].
  - destruct Hy as [->|Hy].
    + assert (Hs := sort_desc_sorted l).
      apply sort_desc_in in Hx. revert Hx Hs.
      generalize (sort_desc l) as s. clear IH.
      induction s as [|h s IHs]; simpl; intros Hx Hs; [contradiction|].
      inversion Hs as [|? ? Hs' Hh]; subst.
      destruct (Rlt_dec (snd y) (snd h)) as [Hlt'|Hge].
      * destruct Hx as [->|Hx].
        -- apply before_here.
           apply (Permutation_in _ (Permutation_sym (insert_desc_perm y s))).
           now left.
        -- apply before_later. now apply IHs.
      * exfalso. destruct Hx as [->|Hx]; [lra|].
        rewrite Forall_forall in Hh. specialize (Hh x Hx).
        unfold score_ge in Hh. lra.
    + now apply insert_desc_before, IH.
Qed.

End SortFacts.

(* ================================================================== *)
(** * Facts about dictionaries *)

Section DictFacts.

Context {V : Type}.
Implicit Types (d : Dict.t V) (k : string) (v : V).

Lemma get_set d k v k' :
  Dict.get (Dict.set d k v) k'
  = if String.eqb k k' then Some v else Dict.get d k'.
Proof.
  induction d as [|[k0 v0] d IH]; simpl.
  - destruct (String.eqb_spec k k'); reflexivity.
  - destruct (String.eqb_spec k0 k) as [->|Hne]; simpl.
    + destruct (String.eqb_spec k k'); reflexivity.
    + rewrite IH. destruct (String.eqb_spec k0 k') as [->|Hne'];
        [|reflexivity].
      destruct (String.eqb_spec k k'); [congruence | reflexivity].
Qed.

Lemma mem_set d k v k' :
  Dict.mem (Dict.set d k v) k' = String.eqb k k' || Dict.mem d k'.
Proof.
  unfold Dict.mem. rewrite get_set. now destruct (String.eqb k k').
Qed.

Lemma get_in_keys d k : Dict.mem d k = true <-> In k (keys d).
Proof.
  unfold Dict.mem, keys. induction d as [|[k0 v0] d IH]; simpl.
  - split; [discriminate | contradiction].
  - destruct (String.eqb_spec k0 k) as [->|Hne].
    + split; auto.
    + rewrite IH. split; [auto | intros [H|H]; [contradiction | exact H]].
Qed.

Lemma keys_set d k v :
  keys (Dict.set d k v) = if Dict.mem d k then keys d else keys d ++ [k].
Proof.
  unfold keys, Dict.mem. induction d as [|[k0 v0] d IH]; simpl;
    [reflexivity|].
  destruct (String.eqb_spec k0 k) as [->|Hne]; simpl; [reflexivity|].
  rewrite IH. now destruct (Dict.get d k).
Qed.

Lemma nodup_keys_set d k v :
  NoDup (keys d) -> NoDup (keys (Dict.set d k v)).
Proof.
  intros Hd. rewrite keys_set. destruct (Dict.mem d k) eqn:E; [exact Hd|].
  apply NoDup_app; [exact Hd | repeat constructor; intros [] |].
  intros x Hx [<-|[]]. apply get_in_keys in Hx. congruence.
Qed.

End DictFacts.

Lemma mem_str_in (w : string) (l : list string) :
  mem_str w l = true <-> In w l.
Proof.
  unfold mem_str. rewrite existsb_exists. split.
  - intros [x [Hx Heq]]. apply String.eqb_eq in Heq. now subst.
  - intros H. exists w. split; [exact H | apply String.eqb_refl].
Qed.

Lemma mem_str_cons (w x : string) (l : list string) :
  mem_str w (x :: l) = String.eqb w x || mem_str w l.
Proof. reflexivity. Qed.

(* ================================================================== *)
(** * Facts about the counters of the index *)

Section CounterFacts.

Import BM25.

Lemma get_or_incr (d : Dict.t nat) (w k : string) :
  Dict.get_or (incr d w) k 0
  = Dict.get_or d k 0 + b2n (String.eqb w k).
Proof.
  unfold incr, Dict.get_or. rewrite get_set.
  destruct (String.eqb_spec w k) as [->|Hne]; simpl; lia.
Qed.

Lemma mem_incr (d : Dict.t nat) (w k : string) :
  Dict.mem (incr d w) k = String.eqb w k || Dict.mem d k.
Proof. apply mem_set. Qed.

Lemma nodup_keys_incr (d : Dict.t nat) (w : string) :
  NoDup (keys d) -> NoDup (keys (incr d w)).
Proof. apply nodup_keys_set. Qed.

(** [term_freqs] counts the occurrences of every word. *)
Lemma term_freqs_from (doc : list string) (d : Dict.t nat) (k : string) :
  Dict.get_or (fold_left incr doc d) k 0
  = Dict.get_or d k 0 + tf_count doc k.
Proof.
  revert d. induction doc as [|w doc IH]; simpl; intros d; [lia|].
  rewrite IH, get_or_incr. unfold tf_count.
  destruct (string_dec w k) as [->|Hne].
  - rewrite String.eqb_refl. simpl. lia.
  - destruct (String.eqb_spec w k); [contradiction|]. simpl. lia.
Qed.

Lemma term_freqs_count (doc : list string) (k : string) :
  Dict.get_or (term_freqs doc) k 0 = tf_count doc k.
Proof. unfold term_freqs. now rewrite term_freqs_from. Qed.

(** One document adds one to the counter of each of its words that
    [seen] does not hold yet. *)
Lemma count_word_fold (doc : list string) (df : Dict.t nat)
      (seen : list string) (k : string) :
  let df' := fst (fold_left count_word doc (df, seen)) in
  Dict.get_or df' k 0
  = Dict.get_or df k 0 + b2n (mem_str k doc && negb (mem_str k seen))
  /\ Dict.mem df' k
     = Dict.mem df k || (mem_str k doc && negb (mem_str k seen))
  /\ (NoDup (keys df) -> NoDup (keys df')).
Proof.
  revert df seen. induction doc as [|w doc IH]; intros df seen; simpl.
  - repeat split; [lia | now rewrite orb_false_r | auto].
  - destruct (mem_str w seen) eqn:Ew.
    + destruct (IH df seen) as (H1 & H2 & H3).
      split; [|split; [|exact H3]].
      * rewrite H1. rewrite mem_str_cons.
        destruct (String.eqb_spec k w) as [->|Hne]; simpl;
          [now rewrite Ew, andb_false_r | reflexivity].
      * rewrite H2. rewrite mem_str_cons.
        destruct (String.eqb_spec k w) as [->|Hne]; simpl;
          [now rewrite Ew, andb_false_r | reflexivity].
    + destruct (IH (incr df w) (w :: seen)) as (H1 & H2 & H3).
      split; [|split].
      * rewrite H1, get_or_incr. rewrite !mem_str_cons.
        rewrite (String.eqb_sym k w).
        destruct (String.eqb_spec w k) as [->|Hne]; simpl.
        -- rewrite Ew, andb_false_r. simpl. lia.
        -- lia.
      * rewrite H2, mem_incr. rewrite !mem_str_cons.
        rewrite (String.eqb_sym k w).
        destruct (String.eqb_spec w k) as [->|Hne]; simpl.
        -- rewrite Ew. simpl. now rewrite orb_true_r.
        -- reflexivity.
      * intros Hd. apply H3. now apply nodup_keys_incr.
Qed.

Lemma count_doc_get (df : Dict.t nat) (doc : list string) (k : string) :
  Dict.get_or (count_doc df doc) k 0
  = Dict.get_or df k 0 + b2n (mem_str k doc).
Proof.
  unfold count_doc. destruct (count_word_fold doc df [] k) as (H & _).
  simpl in H. rewrite H. now rewrite andb_true_r.
Qed.

Lemma count_doc_mem (df : Dict.t nat) (doc : list string) (k : string) :
  Dict.mem (count_doc df doc) k = Dict.mem df k || mem_str k doc.
Proof.
  unfold count_doc. destruct (count_word_fold doc df [] k) as (_ & H & _).
  simpl in H. rewrite H. now rewrite andb_true_r.
Qed.

Lemma count_doc_nodup (df : Dict.t nat) (doc : list string) :
  NoDup (keys df) -> NoDup (keys (count_doc df doc)).
Proof.
  unfold count_doc.
  destruct (count_word_fold doc df [] EmptyString) as (_ & _ & H). exact H.
Qed.

(** The document frequencies after the loop over the corpus: what the
    object held before, plus the number of documents with the word. *)
Lemma doc_freqs_get (corpus : list (list string)) (df : Dict.t nat)
      (k : string) :
  Dict.get_or (fold_left count_doc corpus df) k 0
  = Dict.get_or df k 0 + df_count corpus k.
Proof.
  revert df. induction corpus as [|doc corpus IH]; intros df; simpl;
    [unfold df_count; simpl; lia|].
  rewrite IH, count_doc_get. unfold df_count. simpl.
  destruct (mem_str k doc); simpl; lia.
Qed.

Lemma doc_freqs_mem (corpus : list (list string)) (df : Dict.t nat)
      (k : string) :
  Dict.mem (fold_left count_doc corpus df) k
  = Dict.mem df k || (0 <? df_count corpus k).
Proof.
  revert df. induction corpus as [|doc corpus IH]; intros df; simpl;
    [unfold df_count; simpl; now rewrite orb_false_r|].
  rewrite IH, count_doc_mem. unfold df_count. simpl.
  destruct (mem_str k doc); simpl;
    [now rewrite !orb_true_r | now rewrite orb_false_r].
Qed.

Lemma doc_freqs_nodup (corpus : list (list string)) (df : Dict.t nat) :
  NoDup (keys df) -> NoDup (keys (fold_left count_doc corpus df)).
Proof.
  revert df. induction corpus as [|doc corpus IH]; intros df Hd; simpl;
    [exact Hd|].
  apply IH. now apply count_doc_nodup.
Qed.

End CounterFacts.

(* ================================================================== *)
(** * Facts about [fit] *)

Section FitFacts.

Import BM25.
Local Open Scope R_scope.

Lemma div_plus_one_pos (a d : R) : 0 < d -> 0 < a + d -> 0 < a / d + 1.
Proof.
  intros Hd Had.
  replace (a / d + 1) with ((a + d) / d) by (field; lra).
  apply Rdiv_lt_0_compat; lra.
Qed.

Lemma py_div_ok (x y : R) : y <> 0 -> py_div x y = Ok (x / y).
Proof.
  intros Hy. unfold py_div. destruct (Req_dec_T y 0); [contradiction|].
  reflexivity.
Qed.

Lemma py_log_ok (x : R) : 0 < x -> py_log x = Ok (ln x).
Proof.
  intros Hx. unfold py_log. destruct (Rlt_dec 0 x); [|contradiction].
  reflexivity.
Qed.

(** No step of the idf loop raises, whatever the counters hold: the
    argument of the logarithm is [(N + 1) / (freq + 0.5)]. *)
Lemma idf_step_ok (n : nat) (idf : Dict.t R) (w : string) (f : nat) :
  idf_step n idf (w, f) = Ok (Dict.set idf w (idf_value n f)).
Proof.
  unfold idf_step, idf_value.
  assert (Hn := pos_INR n). assert (Hf := pos_INR f).
  rewrite py_div_ok by lra. simpl.
  rewrite py_log_ok; [reflexivity|].
  apply div_plus_one_pos; lra.
Qed.

Lemma idf_loop_ok (n : nat) (df : Dict.t nat) (idf : Dict.t R) :
  foldM (idf_step n) df idf = Ok (idf_update n idf df).
Proof.
  revert idf. induction df as [|[w f] df IH]; intros idf;
    cbn [foldM]; [reflexivity|].
  rewrite idf_step_ok. cbn [bind]. apply IH.
Qed.

Lemma get_not_in_keys {V : Type} (d : Dict.t V) (k : string) :
  ~ In k (keys d) -> Dict.get d k = None.
Proof.
  intros H. destruct (Dict.get d k) eqn:E; [|reflexivity].
  exfalso. apply H, get_in_keys. unfold Dict.mem. now rewrite E.
Qed.

Lemma idf_update_get (n : nat) (df : Dict.t nat) (idf : Dict.t R)
      (w : string) :
  NoDup (keys df) ->
  Dict.get (idf_update n idf df) w
  = match Dict.get df w with
    | Some f => Some (idf_value n f)
    | None => Dict.get idf w
    end.
Proof.
  revert idf. induction df as [|[k f] df IH]; intros idf Hd; simpl;
    [reflexivity|].
  inversion Hd as [|? ? Hk Hd']; subst.
  unfold idf_update in *. simpl. rewrite IH by exact Hd'.
  destruct (String.eqb_spec k w) as [->|Hne].
  - rewrite get_not_in_keys by exact Hk.
    rewrite get_set, String.eqb_refl. reflexivity.
  - destruct (Dict.get df w); [reflexivity|].
    rewrite get_set. destruct (String.eqb_spec k w); [contradiction|].
    reflexivity.
Qed.

(** [fit] never raises, on a new object or on a used one. *)
Lemma fit_total (self : t) (documents : list string) :
  exists bm, fit self documents = Ok bm
             /\ corpus bm = map tokenize documents
             /\ N bm = length documents.
Proof.
  unfold fit. rewrite length_map.
  destruct (length documents =? 0)%nat eqn:E.
  - eexists. split; [reflexivity|]. split; reflexivity.
  - apply Nat.eqb_neq in E.
    rewrite py_div_ok by (apply not_0_INR; exact E). cbn [bind].
    rewrite idf_loop_ok. cbn [bind].
    eexists. split; [reflexivity|]. split; reflexivity.
Qed.

(** The counters after [fit] on a corpus that is not empty: those of
    the object, plus one per document for each of its words. *)
Lemma fit_doc_freqs (self : t) (documents : list string) :
  documents <> [] ->
  exists bm, fit self documents = Ok bm
             /\ doc_freqs bm
                = fold_left count_doc (map tokenize documents)
                            (doc_freqs self).
Proof.
  intros Hne. unfold fit. rewrite length_map.
  destruct (length documents =? 0)%nat eqn:E.
  - apply Nat.eqb_eq, length_zero_iff_nil in E. contradiction.
  - apply Nat.eqb_neq in E.
    rewrite py_div_ok by (apply not_0_INR; exact E). cbn [bind].
    rewrite idf_loop_ok. cbn [bind].
    eexists. split; reflexivity.
Qed.

(** The index that [fit] builds on a new object. *)
Lemma fit_new (documents : list string) :
  exists bm, fit new documents = Ok bm /\ fresh_index documents bm.
Proof.
  unfold fit. rewrite length_map.
  destruct (length documents =? 0)%nat eqn:E.
  - apply Nat.eqb_eq in E. apply length_zero_iff_nil in E. subst.
    eexists. split; [reflexivity|].
    constructor; simpl; try reflexivity.
  - pose proof E as E'. apply Nat.eqb_neq in E'.
    rewrite py_div_ok by (apply not_0_INR; exact E'). cbn [bind].
    rewrite idf_loop_ok. cbn [bind].
    eexists. split; [reflexivity|].
    constructor; simpl; try reflexivity.
    + rewrite E. reflexivity.
    + intros w. now rewrite doc_freqs_get.
    + intros w.
      rewrite idf_update_get by (apply doc_freqs_nodup; constructor).
      simpl.
      pose proof (doc_freqs_get (map tokenize documents) [] w) as Hg.
      pose proof (doc_freqs_mem (map tokenize documents) [] w) as Hm.
      unfold Dict.get_or, Dict.mem in Hg, Hm. simpl in Hg, Hm.
      destruct (Dict.get (fold_left count_doc (map tokenize documents) [])
                         w) as [f|].
      * rewrite <- Hm. now subst f.
      * now rewrite <- Hm.
Qed.

End FitFacts.

(* ================================================================== *)
(** * Facts about [score] *)

Section ScoreFacts.

Import BM25.
Local Open Scope R_scope.

Variable documents : list string.
Variable bm : t.
Hypothesis Hfresh : fresh_index documents bm.

Lemma fresh_length_corpus : length (corpus bm) = length documents.
Proof. rewrite (fresh_corpus _ _ Hfresh). apply length_map. Qed.

Lemma list_sum_in (n : nat) (l : list nat) :
  In n l -> (n <= list_sum l)%nat.
Proof.
  induction l as [|m l IH]; simpl; intros H; [contradiction|].
  destruct H as [->|H]; [lia|]. specialize (IH H). lia.
Qed.

(** A word with an idf entry occurs in some document, so the average
    document length is positive. *)
Lemma fresh_avgdl_pos (w : string) :
  (0 < df_count (corpus bm) w)%nat -> 0 < avgdl bm.
Proof.
  intros Hdf. unfold df_count in Hdf.
  destruct (filter (mem_str w) (corpus bm)) as [|doc rest] eqn:E;
    [simpl in Hdf; lia|].
  assert (Hin : In doc (filter (mem_str w) (corpus bm)))
    by (rewrite E; now left).
  apply filter_In in Hin. destruct Hin as [Hdoc Hw].
  apply mem_str_in in Hw.
  assert (Hlen : (1 <= length doc)%nat)
    by (destruct doc; [contradiction | simpl; lia]).
  assert (Hsum : (1 <= list_sum (doc_lengths bm))%nat).
  { rewrite (fresh_lengths _ _ Hfresh).
    etransitivity; [exact Hlen|]. apply list_sum_in. now apply in_map. }
  assert (HN : (1 <= N bm)%nat).
  { rewrite (fresh_N _ _ Hfresh), <- fresh_length_corpus.
    destruct (corpus bm); [contradiction | simpl; lia]. }
  rewrite (fresh_avgdl _ _ Hfresh).
  destruct (N bm =? 0)%nat eqn:EN; [apply Nat.eqb_eq in EN; lia|].
  apply Rdiv_lt_0_compat; apply lt_0_INR; lia.
Qed.

Lemma denominator_pos (tf doc_len : nat) :
  0 < avgdl bm ->
  0 < INR tf + k1 bm * (1 - b bm + b bm * INR doc_len / avgdl bm).
Proof.
  intros Ha. rewrite (fresh_k1 _ _ Hfresh), (fresh_b _ _ Hfresh).
  assert (Ht := pos_INR tf). assert (Hl := pos_INR doc_len).
  assert (0 <= 0.75 * INR doc_len / avgdl bm).
  { apply Rmult_le_pos; [lra|]. left. now apply Rinv_0_lt_compat. }
  lra.
Qed.

(** One step of the token loop never raises and adds the contribution
    of the token. *)
Lemma score_token_ok (doc : list string) (s : R) (token : string) :
  score_token bm (length doc) (term_freqs doc) s token
  = Ok (s + contribution bm doc token).
Proof.
  unfold score_token, contribution.
  pose proof (fresh_idf _ _ Hfresh token) as Hidf.
  destruct (Dict.get (idf bm) token) as [i|]; [|now rewrite Rplus_0_r].
  destruct (0 <? df_count (corpus bm) token)%nat eqn:E; [|discriminate].
  apply Nat.ltb_lt in E. pose proof (fresh_avgdl_pos token E) as Ha.
  rewrite py_div_ok by lra. cbn [bind].
  rewrite term_freqs_count.
  rewrite py_div_ok
    by (apply Rgt_not_eq, Rlt_gt, denominator_pos; exact Ha).
  reflexivity.
Qed.

Lemma score_tokens_ok (doc : list string) (tokens : list string) (s : R) :
  foldM (score_token bm (length doc) (term_freqs doc)) tokens s
  = Ok (fold_left (fun s token => s + contribution bm doc token) tokens s).
Proof.
  revert s. induction tokens as [|token tokens IH]; intros s;
    cbn [foldM fold_left]; [reflexivity|].
  rewrite score_token_ok. cbn [bind]. apply IH.
Qed.

Lemma score_doc_ok (tokens : list string) (idx : nat) (doc : list string) :
  nth_error (corpus bm) idx = Some doc ->
  score_doc bm tokens (idx, doc) = Ok (idx, doc_score bm tokens doc).
Proof.
  intros Hnth. unfold score_doc, py_index.
  rewrite (fresh_lengths _ _ Hfresh).
  rewrite (map_nth_error _ _ _ Hnth). cbn [bind].
  rewrite score_tokens_ok. reflexivity.
Qed.

Lemma score_docs_ok (tokens : list string) (pre l : list (list string)) :
  corpus bm = pre ++ l ->
  mapM (score_doc bm tokens) (combine (seq (length pre) (length l)) l)
  = Ok (combine (seq (length pre) (length l))
                (map (doc_score bm tokens) l)).
Proof.
  revert pre. induction l as [|doc l IH]; intros pre Hc;
    cbn [length seq combine mapM map]; [reflexivity|].
  rewrite score_doc_ok
    by (rewrite Hc, nth_error_app2, Nat.sub_diag by lia; reflexivity).
  cbn [bind].
  specialize (IH (pre ++ [doc])%list).
  rewrite length_app in IH. cbn [length] in IH.
  rewrite Nat.add_1_r in IH.
  rewrite IH by (rewrite <- app_assoc; exact Hc).
  reflexivity.
Qed.

(** [score] on a fresh index never raises; it returns the sorted list
    of the document scores. *)
Lemma score_fresh (query : string) :
  score bm query = Ok (sort_desc (scores_of bm query)).
Proof.
  unfold score, enumerate, scores_of.
  pose proof (score_docs_ok (tokenize query) [] (corpus bm) eq_refl) as H.
  cbn [length] in H. rewrite H. reflexivity.
Qed.

Lemma scores_of_positions (query : string) :
  map fst (scores_of bm query) = seq 0 (length documents).
Proof.
  unfold scores_of. rewrite <- fresh_length_corpus.
  generalize (doc_score bm (tokenize query)) as f. intros f.
  generalize 0%nat as start.
  induction (corpus bm) as [|x l IH]; intros start; simpl; [reflexivity|].
  now rewrite IH.
Qed.

Lemma scores_of_in (query : string) (idx : nat) (doc : list string) :
  nth_error (corpus bm) idx = Some doc ->
  In (idx, doc_score bm (tokenize query) doc) (scores_of bm query).
Proof.
  unfold scores_of. generalize (doc_score bm (tokenize query)) as f.
  intros f. change idx with (0 + idx)%nat at 2.
  generalize 0%nat as start. revert idx.
  induction (corpus bm) as [|d l IH]; intros idx start Hnth;
    [destruct idx; discriminate|].
  destruct idx as [|idx]; simpl in *.
  - injection Hnth as ->. left. f_equal. lia.
  - right. replace (start + S idx)%nat with (S start + idx)%nat by lia.
    now apply IH.
Qed.

Lemma in_scores_of (query : string) (idx : nat) (s : R) :
  In (idx, s) (scores_of bm query) ->
  exists doc, nth_error (corpus bm) idx = Some doc
              /\ s = doc_score bm (tokenize query) doc.
Proof.
  unfold scores_of. generalize (doc_score bm (tokenize query)) as f.
  intros f.
  assert (H : forall l start,
             In (idx, s) (combine (seq start (length l)) (map f l)) ->
             exists doc, nth_error l (idx - start) = Some doc
                         /\ s = f doc /\ (start <= idx)%nat).
  { induction l as [|d l IH]; intros start Hin; simpl in *;
      [contradiction|].
    destruct Hin as [Heq|Hin].
    - injection Heq as <- <-. exists d. rewrite Nat.sub_diag.
      repeat split. lia.
    - destruct (IH _ Hin) as (doc & Hnth & Hs & Hle).
      exists doc. replace (idx - start)%nat with (S (idx - S start)) by lia.
      repeat split; [exact Hnth | exact Hs | lia]. }
  intros Hin. destruct (H _ _ Hin) as (doc & Hnth & Hs & _).
  rewrite Nat.sub_0_r in Hnth. now exists doc.
Qed.

(** A token that the document does not hold adds nothing. *)
Lemma contribution_absent (doc : list string) (token : string) :
  ~ In token doc -> contribution bm doc token = 0.
Proof.
  intros Hn. unfold contribution, term_score, tf_count.
  destruct (Dict.get (idf bm) token); [|reflexivity].
  rewrite (proj1 (count_occ_not_In string_dec doc token) Hn).
  simpl INR. unfold Rdiv. now rewrite Rmult_0_l, Rmult_0_r, Rmult_0_l.
Qed.

Lemma doc_score_no_overlap (tokens doc : list string) :
  (forall token, In token tokens -> ~ In token doc) ->
  doc_score bm tokens doc = 0.
Proof.
  unfold doc_score. generalize 0 as s.
  induction tokens as [|token tokens IH]; intros s H; simpl;
    [reflexivity|].
  rewrite contribution_absent by (apply H; now left).
  rewrite Rplus_0_r. apply IH. intros t Ht. apply H. now right.
Qed.

End ScoreFacts.

(* ================================================================== *)
(** * The index: empty corpus, determinism, scope *)

(** C6. An empty corpus is safe. [fit] on no document leaves N = 0 and
    avgdl = 0 without dividing, and [score] then returns the empty list
    for every query. More generally neither [fit] nor [score] raises on
    any corpus: the average length divides only when a query token has an
    idf entry, and then some document is not empty. *)
Theorem empty_corpus_safe :
  (exists bm,
      BM25.fit BM25.new [] = Ok bm
      /\ BM25.N bm = 0 /\ BM25.avgdl bm = 0%R
      /\ forall query, BM25.score bm query = Ok [])
  /\ (forall documents query,
         exists bm l,
           BM25.fit BM25.new documents = Ok bm
           /\ BM25.score bm query = Ok l).
Proof.
  split.
  - eexists. split; [reflexivity|]. repeat split.
  - intros documents query.
    destruct (fit_new documents) as (bm & Hfit & Hfresh).
    exists bm, (sort_desc (scores_of bm query)).
    split; [exact Hfit|]. now apply (score_fresh documents).
Qed.

(** C10. After [fit] on N documents, [score] returns one pair per
    document: the positions are a permutation of 0..N-1, the pairs are in
    descending score order and, among equal scores, in ascending position
    order, and a document that holds no query token is present with
    score 0. *)
Theorem score_one_pair_per_document (documents : list string)
        (query : string) :
  exists bm l,
    BM25.fit BM25.new documents = Ok bm
    /\ BM25.score bm query = Ok l
    /\ Permutation (map fst l) (seq 0 (length documents))
    /\ StronglySorted ranks_before l
    /\ (forall idx text,
           nth_error documents idx = Some text ->
           (forall token, In token (BM25.tokenize query) ->
                          ~ In token (BM25.tokenize text)) ->
           In (idx, 0%R) l).
Proof.
  destruct (fit_new documents) as (bm & Hfit & Hfresh).
  exists bm, (sort_desc (scores_of bm query)).
  split; [exact Hfit|]. split; [now apply (score_fresh documents)|].
  split; [|split].
  - rewrite <- (scores_of_positions documents bm Hfresh query).
    apply Permutation_map, sort_desc_perm.
  - apply sort_desc_ranks.
    rewrite (scores_of_positions documents bm Hfresh query).
    generalize 0 as start. generalize (length documents) as n.
    induction n as [|n IH]; intros start; simpl; constructor;
      [apply IH|].
    apply Forall_forall. intros x Hx. apply in_seq in Hx. lia.
  - intros idx text Hnth Hno. apply sort_desc_in.
    assert (Hc : nth_error (BM25.corpus bm) idx
                 = Some (BM25.tokenize text)).
    { rewrite (fresh_corpus _ _ Hfresh). now apply map_nth_error. }
    rewrite <- (doc_score_no_overlap bm (BM25.tokenize query)
                                     (BM25.tokenize text) Hno).
    now apply scores_of_in.
Qed.

(** The claim of [score_one_pair_per_document] on two documents: the
    first one holds no token of the query and is listed with score 0. *)
Lemma score_one_pair_per_document_witness :
  exists bm l,
    BM25.fit BM25.new ["Neon Glow"; "Retro Wave"] = Ok bm
    /\ BM25.score bm "retro" = Ok l
    /\ In (0, 0%R) l.
Proof.
  destruct (score_one_pair_per_document ["Neon Glow"; "Retro Wave"] "retro")
    as (bm & l & Hfit & Hscore & _ & _ & Hzero).
  exists bm, l. split; [exact Hfit|]. split; [exact Hscore|].
  apply (Hzero 0 "Neon Glow" eq_refl).
  intros token Hin Hdoc. vm_compute in Hin, Hdoc.
  destruct Hin as [<-|[]].
  destruct Hdoc as [H|[H|[]]]; discriminate H.
Defined.

(** A used object is not reset by [fit]: the counters of the first corpus
    stay in it. Every search builds its own object. *)
Lemma fit_again_keeps_counters :
  exists bm1 bm2,
    BM25.fit BM25.new ["retro wave"] = Ok bm1
    /\ BM25.fit bm1 ["retro glow"] = Ok bm2
    /\ Dict.get_or (BM25.doc_freqs bm2) "retro" 0 = 2
    /\ df_count (BM25.corpus bm2) "retro" = 1.
Proof.
  destruct (fit_doc_freqs BM25.new ["retro wave"]) as (bm1 & H1 & Hd1);
    [discriminate|].
  destruct (fit_doc_freqs bm1 ["retro glow"]) as (bm2 & H2 & Hd2);
    [discriminate|].
  destruct (fit_total bm1 ["retro glow"]) as (bm2' & H2' & Hc & _).
  rewrite H2 in H2'. injection H2' as <-.
  exists bm1, bm2. split; [exact H1|]. split; [exact H2|].
  split; [|rewrite Hc; reflexivity].
  rewrite Hd2, Hd1. reflexivity.
Qed.

Lemma ranked_as_merge (data : list Row) (search_cols : list string)
      (query : string) :
  exists bm,
    BM25.fit BM25.new (map (doc_text search_cols) data) = Ok bm
    /\ fresh_index (map (doc_text search_cols) data) bm
    /\ ranked data search_cols query
       = Ok (merge (regex_search data query search_cols)
                   (sort_desc (scores_of bm query))).
Proof.
  destruct (fit_new (map (doc_text search_cols) data))
    as (bm & Hfit & Hfresh).
  exists bm. split; [exact Hfit|]. split; [exact Hfresh|].
  unfold ranked. rewrite Hfit. cbn [bind].
  rewrite (score_fresh _ bm Hfresh query). reflexivity.
Qed.

(** C8. The statistics of the index are those of the corpus of the one
    call. Every search builds the documents of its own rows, fits a new
    object on them and scores with it: N, the document lengths, avgdl,
    the document frequencies and the idf table of that object are
    functions of these documents alone. *)
Theorem index_scoped_to_call (data : list Row) (search_cols : list string)
        (query : string) :
  let documents := map (doc_text search_cols) data in
  exists bm,
    BM25.fit BM25.new documents = Ok bm
    /\ fresh_index documents bm
    /\ BM25.score bm query = Ok (sort_desc (scores_of bm query))
    /\ ranked data search_cols query
       = Ok (merge (regex_search data query search_cols)
                   (sort_desc (scores_of bm query))).
Proof.
  intros documents. destruct (fit_new documents) as (bm & Hfit & Hfresh).
  exists bm. split; [exact Hfit|]. split; [exact Hfresh|].
  pose proof (score_fresh documents bm Hfresh query) as Hs.
  split; [exact Hs|].
  unfold ranked. fold documents. rewrite Hfit. cbn [bind].
  rewrite Hs. reflexivity.
Qed.

(* ================================================================== *)
(** * Facts about the booster and the merger *)

Section MergeFacts.

Local Open Scope R_scope.

Lemma mem_nat_in (n : nat) (l : list nat) : mem_nat n l = true <-> In n l.
Proof.
  unfold mem_nat. rewrite existsb_exists. split.
  - intros [x [Hx Heq]]. apply Nat.eqb_eq in Heq. now subst.
  - intros H. exists n. split; [exact H | apply Nat.eqb_refl].
Qed.

Lemma mem_nat_not_in (n : nat) (l : list nat) :
  mem_nat n l = false <-> ~ In n l.
Proof.
  rewrite <- mem_nat_in. destruct (mem_nat n l); split; congruence.
Qed.

Lemma mem_nat_cons (n m : nat) (l : list nat) :
  mem_nat n (m :: l) = Nat.eqb n m || mem_nat n l.
Proof. reflexivity. Qed.

(** The hits of the booster over the rows from position [start] on. *)
Lemma regex_hits_from (query : string) (search_cols : list string)
      (data : list Row) (start : nat) :
  let hits :=
    flat_map (fun entry : nat * Row =>
                if row_matches query search_cols (snd entry)
                then [(fst entry, 100)] else [])
             (combine (seq start (length data)) data) in
  (forall i s, In (i, s) hits <->
               s = 100 /\ (start <= i)%nat
               /\ exists row, nth_error data (i - start) = Some row
                              /\ row_matches query search_cols row = true)
  /\ NoDup (map fst hits).
Proof.
  revert start. induction data as [|row data IH]; intros start; simpl.
  - split; [|constructor]. intros i s. split; [contradiction|].
    intros (_ & _ & r & Hr & _). destruct (i - start)%nat; discriminate.
  - destruct (IH (S start)) as [IHin IHnd]. split.
    + intros i s. rewrite in_app_iff, IHin. split.
      * intros [Hhead|(Hs & Hle & r & Hr & Hm)].
        -- destruct (row_matches query search_cols row) eqn:E;
             [|contradiction].
           destruct Hhead as [Heq|[]]. injection Heq as <- <-.
           repeat split; [lia|]. exists row. now rewrite Nat.sub_diag.
        -- repeat split; [exact Hs | lia|]. exists r.
           replace (i - start)%nat with (S (i - S start)) by lia.
           now split.
      * intros (Hs & Hle & r & Hr & Hm).
        destruct (Nat.eq_dec i start) as [->|Hne].
        -- left. rewrite Nat.sub_diag in Hr. injection Hr as ->.
           rewrite Hm. left. now subst.
        -- right. repeat split; [exact Hs | lia|]. exists r.
           replace (i - start)%nat with (S (i - S start)) in Hr by lia.
           now split.
    + rewrite map_app. apply NoDup_app; [|exact IHnd|].
      * destruct (row_matches query search_cols row); repeat constructor.
        intros [].
      * intros i Hi Hi'. apply in_map_iff in Hi'.
        destruct Hi' as ([i' s] & Heq & Hin). simpl in Heq. subst i'.
        apply IHin in Hin. destruct Hin as (_ & Hle & _).
        destruct (row_matches query search_cols row); [|contradiction].
        simpl in Hi. destruct Hi as [<-|[]]. lia.
Qed.

Lemma regex_search_in (data : list Row) (query : string)
      (search_cols : list string) (i : nat) (s : R) :
  In (i, s) (regex_search data query search_cols)
  <-> s = 100 /\ exact_at data query search_cols i = true.
Proof.
  destruct (regex_hits_from query search_cols data 0) as [H _].
  unfold regex_search, enumerate. rewrite H. unfold exact_at.
  rewrite Nat.sub_0_r. split.
  - intros (Hs & _ & r & Hr & Hm). rewrite Hr. now split.
  - intros (Hs & Hm). split; [exact Hs|]. split; [lia|].
    destruct (nth_error data i) as [r|]; [|discriminate]. now exists r.
Qed.

Lemma regex_search_nodup (data : list Row) (query : string)
      (search_cols : list string) :
  NoDup (map fst (regex_search data query search_cols)).
Proof. apply (regex_hits_from query search_cols data 0). Qed.

Lemma regex_search_positions (data : list Row) (query : string)
      (search_cols : list string) (i : nat) :
  In i (map fst (regex_search data query search_cols))
  <-> exact_at data query search_cols i = true.
Proof.
  rewrite in_map_iff. split.
  - intros ([i' s] & Heq & Hin). simpl in Heq. subst i'.
    now apply regex_search_in in Hin.
  - intros H. exists (i, 100). split; [reflexivity|].
    now apply regex_search_in.
Qed.

(** The first loop on hits with distinct positions, none seen yet. *)
Lemma admit_regex_fold (rs : list (nat * R)) (seen : list nat)
      (merged : list (nat * R)) :
  NoDup (map fst rs) ->
  (forall i, In i (map fst rs) -> ~ In i seen) ->
  fold_left admit_regex rs (seen, merged)
  = (rev (map fst rs) ++ seen, merged ++ map boost rs)%list.
Proof.
  revert seen merged. induction rs as [|[i s] rs IH];
    intros seen merged Hnd Hseen; simpl.
  - now rewrite app_nil_r.
  - inversion Hnd as [|? ? Hi Hnd']; subst.
    assert (E : mem_nat i seen = false)
      by (apply mem_nat_not_in, Hseen; now left).
    rewrite E. rewrite IH; [| exact Hnd' |].
    + rewrite <- !app_assoc. reflexivity.
    + intros j Hj [<-|Hin]; [contradiction|].
      apply (Hseen j); [now right | exact Hin].
Qed.

(** The second loop on results with distinct positions. *)
Lemma admit_bm25_fold (bs : list (nat * R)) (exact seen : list nat)
      (merged : list (nat * R)) :
  NoDup (map fst bs) ->
  (forall i, In i (map fst bs) -> mem_nat i seen = mem_nat i exact) ->
  snd (fold_left admit_bm25 bs (seen, merged))
  = (merged ++ filter (admitted exact) bs)%list.
Proof.
  revert seen merged. induction bs as [|[i s] bs IH];
    intros seen merged Hnd Hseen; simpl.
  - now rewrite app_nil_r.
  - inversion Hnd as [|? ? Hi Hnd']; subst.
    unfold admitted at 1. simpl.
    rewrite <- (Hseen i) by now left.
    destruct (negb (mem_nat i seen) && is_positive s) eqn:E.
    + rewrite IH; [| exact Hnd' |].
      * now rewrite <- app_assoc.
      * intros j Hj. rewrite mem_nat_cons.
        destruct (Nat.eqb_spec j i) as [->|Hne]; [contradiction|].
        simpl. apply Hseen. now right.
    + apply IH; [exact Hnd'|]. intros j Hj. apply Hseen. now right.
Qed.

Lemma merge_unfold (rs bs : list (nat * R)) :
  NoDup (map fst rs) -> NoDup (map fst bs) ->
  merge rs bs
  = sort_desc (map boost rs ++ filter (admitted (map fst rs)) bs).
Proof.
  intros Hr Hb. unfold merge.
  rewrite admit_regex_fold by (auto; intros i _ []).
  rewrite (admit_bm25_fold bs (map fst rs)); [reflexivity | exact Hb|].
  intros i _. rewrite app_nil_r.
  destruct (mem_nat i (map fst rs)) eqn:E.
  - apply mem_nat_in. apply mem_nat_in in E. now apply in_rev in E.
  - apply mem_nat_not_in. apply mem_nat_not_in in E.
    intros H. apply E. now apply in_rev.
Qed.

Lemma nodup_fst {A B : Type} (l : list (A * B)) :
  NoDup (map fst l) -> NoDup l.
Proof. apply NoDup_map_inv. Qed.

End MergeFacts.

(* ================================================================== *)
(** * The ranked list of a search *)

Section RankedFacts.

Local Open Scope R_scope.

Variable data : list Row.
Variable search_cols : list string.
Variable query : string.

(** The ranked list of a search never raises: the boosted exact
    matches, then the admitted BM25 results, sorted. *)
Lemma ranked_ok :
  exists bm,
    BM25.fit BM25.new (map (doc_text search_cols) data) = Ok bm
    /\ fresh_index (map (doc_text search_cols) data) bm
    /\ ranked data search_cols query
       = Ok (sort_desc
               (map boost (regex_search data query search_cols)
                ++ filter (admitted
                             (map fst (regex_search data query search_cols)))
                          (sort_desc (scores_of bm query)))).
Proof.
  destruct (ranked_as_merge data search_cols query)
    as (bm & Hfit & Hfresh & Hr).
  exists bm. split; [exact Hfit|]. split; [exact Hfresh|].
  rewrite Hr. f_equal. apply merge_unfold.
  - apply regex_search_nodup.
  - eapply Permutation_NoDup.
    + symmetry. apply Permutation_map, sort_desc_perm.
    + rewrite (scores_of_positions _ bm Hfresh). apply seq_NoDup.
Qed.

Lemma in_boost_exact (i : nat) (s : R) :
  In (i, s) (map boost (regex_search data query search_cols))
  <-> s = 150 /\ exact_at data query search_cols i = true.
Proof.
  rewrite in_map_iff. split.
  - intros ([i' s'] & Heq & Hin). apply regex_search_in in Hin.
    destruct Hin as [-> Hm]. unfold boost in Heq. simpl in Heq.
    injection Heq as <- <-. split; [lra | exact Hm].
  - intros [-> Hm]. exists (i, 100). split.
    + unfold boost. simpl. f_equal. lra.
    + now apply regex_search_in.
Qed.

Lemma in_admitted (bs : list (nat * R)) (i : nat) (s : R) :
  In (i, s) (filter (admitted
                       (map fst (regex_search data query search_cols))) bs)
  <-> In (i, s) bs /\ exact_at data query search_cols i = false /\ 0 < s.
Proof.
  rewrite filter_In. unfold admitted, is_positive. simpl.
  rewrite andb_true_iff, negb_true_iff, mem_nat_not_in.
  rewrite regex_search_positions.
  destruct (Rlt_dec 0 s); destruct (exact_at data query search_cols i);
    intuition congruence.
Qed.

End RankedFacts.

(* ================================================================== *)
(** * The merger: precedence and admission *)

(** C2, as the code has it. A row that holds the query literally is in
    the merged list with score 150. Against a row without a literal match
    that is in the merged list, the order is decided by the BM25 score
    of that row: when it is at most 150 the exact match stands in front
    (a lower score sorts behind it, and an equal score stays behind it
    because the exact matches are stored first and the sort is stable);
    when it exceeds 150 the row without literal match stands in front of
    the exact match. *)
Theorem exact_match_precedence (data : list Row) (search_cols : list string)
        (query : string) (a b : nat) (sb : R) :
  exact_at data query search_cols a = true ->
  exact_at data query search_cols b = false ->
  exists l,
    ranked data search_cols query = Ok l
    /\ In (a, 150%R) l
    /\ (In (b, sb) l -> (sb <= 150)%R -> before (a, 150%R) (b, sb) l)
    /\ (In (b, sb) l -> (150 < sb)%R -> before (b, sb) (a, 150%R) l).
Proof.
  intros Ha Hb.
  destruct (ranked_ok data search_cols query) as (bm & _ & _ & Hr).
  eexists. split; [exact Hr|].
  assert (HA : In (a, 150%R)
                  (map boost (regex_search data query search_cols)))
    by (apply in_boost_exact; now split).
  split; [|split].
  - apply sort_desc_in, in_or_app. now left.
  - intros Hin Hle. apply sort_desc_stable; [|exact Hle].
    apply sort_desc_in, in_app_or in Hin. destruct Hin as [Hin|Hin].
    + apply in_boost_exact in Hin. destruct Hin as [_ Hin]. congruence.
    + now apply before_app_r.
  - intros Hin Hgt. apply sort_desc_better; [| |exact Hgt].
    + exact (proj1 (sort_desc_in _ _) Hin).
    + apply in_or_app. now left.
Qed.

(** C4, the general part. The merged list holds every position at most
    once; an entry is either an exact match, with score 150, or a row
    without a literal match whose BM25 score is strictly positive, with
    that score. *)
Lemma merge_admission (data : list Row) (search_cols : list string)
      (query : string) :
  exists bm l,
    BM25.fit BM25.new (map (doc_text search_cols) data) = Ok bm
    /\ ranked data search_cols query = Ok l
    /\ NoDup (map fst l)
    /\ forall i s,
        In (i, s) l <->
        (exact_at data query search_cols i = true /\ s = 150%R)
        \/ (exact_at data query search_cols i = false /\ (0 < s)%R
            /\ exists doc, nth_error (BM25.corpus bm) i = Some doc
                           /\ s = doc_score bm (BM25.tokenize query) doc).
Proof.
  destruct (ranked_ok data search_cols query) as (bm & Hfit & Hfresh & Hr).
  exists bm. eexists. split; [exact Hfit|]. split; [exact Hr|].
  set (docs := map (doc_text search_cols) data) in *.
  assert (Hin : forall i s,
             In (i, s) (map boost (regex_search data query search_cols)
                        ++ filter (admitted
                                     (map fst (regex_search data query
                                                            search_cols)))
                                  (sort_desc (scores_of bm query)))
             <-> (exact_at data query search_cols i = true /\ s = 150%R)
                 \/ (exact_at data query search_cols i = false /\ (0 < s)%R
                     /\ exists doc,
                         nth_error (BM25.corpus bm) i = Some doc
                         /\ s = doc_score bm (BM25.tokenize query) doc)).
  { intros i s. rewrite in_app_iff, in_boost_exact, in_admitted.
    rewrite sort_desc_in. split.
    - intros [[Hs He]|(Hb & He & Hs)]; [left; now split|].
      right. split; [exact He|]. split; [exact Hs|].
      now apply in_scores_of.
    - intros [[He Hs]|(He & Hs & doc & Hnth & Hd)]; [left; now split|].
      right. split; [|now split]. subst s.
      now apply scores_of_in. }
  split.
  - eapply Permutation_NoDup;
      [symmetry; apply Permutation_map, sort_desc_perm|].
    rewrite map_app. apply NoDup_app.
    + rewrite map_map. simpl. apply regex_search_nodup.
    + apply NoDup_map_NoDup_ForallPairs.
      * intros x y Hx Hy Hxy. apply filter_In in Hx, Hy.
        destruct Hx as [Hx _], Hy as [Hy _].
        assert (Hnd : NoDup (map fst (sort_desc (scores_of bm query)))).
        { eapply Permutation_NoDup;
            [symmetry; apply Permutation_map, sort_desc_perm|].
          rewrite (scores_of_positions docs bm Hfresh). apply seq_NoDup. }
        revert Hx Hy Hxy Hnd.
        generalize (sort_desc (scores_of bm query)) as l.
        induction l as [|z l IH]; simpl; intros Hx Hy Hxy Hnd;
          [contradiction|].
        inversion Hnd as [|? ? Hz Hnd']; subst.
        destruct Hx as [->|Hx], Hy as [->|Hy]; auto.
        -- exfalso. apply Hz. rewrite Hxy. now apply in_map.
        -- exfalso. apply Hz. rewrite <- Hxy. now apply in_map.
      * apply NoDup_filter. apply nodup_fst.
        eapply Permutation_NoDup;
          [symmetry; apply Permutation_map, sort_desc_perm|].
        rewrite (scores_of_positions docs bm Hfresh). apply seq_NoDup.
    + intros i Hi Hi'. rewrite map_map in Hi. simpl in Hi.
      apply regex_search_positions in Hi.
      apply in_map_iff in Hi'. destruct Hi' as ([i' s] & Heq & Hin').
      simpl in Heq. subst i'. apply in_admitted in Hin'.
      destruct Hin' as (_ & He & _). congruence.
  - intros i s. rewrite sort_desc_in. apply Hin.
Qed.

Lemma singleton_of_members {A : Type} (l : list A) (y : A) :
  NoDup l -> (forall x, In x l <-> x = y) -> l = [y].
Proof.
  intros Hnd H. destruct l as [|x l].
  - exfalso. apply (proj2 (H y) eq_refl).
  - assert (x = y) by (apply H; now left). subst x.
    destruct l as [|z l]; [reflexivity|].
    exfalso. assert (z = y) by (apply H; right; now left). subst z.
    inversion Hnd as [|? ? Hy _]. apply Hy. now left.
Qed.

(** The ranked list of the end-to-end example: the one exact match. *)
Lemma retro_ranked : ranked retro_table ["Name"] "retro" = Ok [(1, 150%R)].
Proof.
  destruct (merge_admission retro_table ["Name"] "retro")
    as (bm & l & Hfit & Hr & Hnd & Hin).
  rewrite Hr. f_equal.
  destruct (fit_new (map (doc_text ["Name"]) retro_table))
    as (bm' & Hfit' & Hfresh).
  rewrite Hfit in Hfit'. injection Hfit' as <-.
  apply singleton_of_members; [now apply nodup_fst|].
  intros [i s]. rewrite Hin. split.
  - intros [[He Hs]|(He & Hs & doc & Hnth & Hd)].
    + subst s.
      assert (Hlt : (i < length retro_table)%nat).
      { apply nth_error_Some. intros E. unfold exact_at in He.
        rewrite E in He. discriminate He. }
      simpl in Hlt.
      destruct i as [|[|[|i]]]; try discriminate He; [reflexivity | lia].
    + exfalso. rewrite (fresh_corpus _ _ Hfresh) in Hnth.
      assert (Hlt : (i < 3)%nat).
      { change 3 with (length retro_table).
        rewrite <- (length_map (doc_text ["Name"]) retro_table).
        rewrite <- (length_map BM25.tokenize).
        apply nth_error_Some. congruence. }
      assert (Hz : s = 0%R).
      { subst s. apply doc_score_no_overlap.
        intros token Ht Hdoc. vm_compute in Ht.
        destruct Ht as [<-|[]].
        destruct i as [|[|[|i]]]; try discriminate He; try lia;
          vm_compute in Hnth; injection Hnth as <-;
          repeat (destruct Hdoc as [Hdoc|Hdoc]; try discriminate Hdoc);
          exact Hdoc. }
      lra.
  - intros Heq. injection Heq as -> ->. left. split; reflexivity.
Qed.

(** C4. After the exact matches the merger admits only rows whose BM25
    score is strictly positive, and no position twice. On the table with
    the names Neon Glow, Retro Wave and Minimalist Clean the query retro
    with at most 2 results returns exactly one row, Retro Wave: the two
    other rows score 0 and are not admitted. *)
Theorem merger_admits_positive_only :
  (forall data search_cols query,
      exists bm l,
        BM25.fit BM25.new (map (doc_text search_cols) data) = Ok bm
        /\ ranked data search_cols query = Ok l
        /\ NoDup (map fst l)
        /\ forall i s,
            In (i, s) l <->
            (exact_at data query search_cols i = true /\ s = 150%R)
            \/ (exact_at data query search_cols i = false /\ (0 < s)%R
                /\ exists doc,
                    nth_error (BM25.corpus bm) i = Some doc
                    /\ s = doc_score bm (BM25.tokenize query) doc))
  /\ (forall output_cols,
         search_rows retro_table ["Name"] output_cols "retro" 2
         = Ok [project output_cols [("Name", "Retro Wave")]])
  /\ search_rows retro_table ["Name"] ["Name"] "retro" 2
     = Ok [[("Name", "Retro Wave")]].
Proof.
  split; [exact merge_admission|].
  assert (H : forall output_cols,
             search_rows retro_table ["Name"] output_cols "retro" 2
             = Ok [project output_cols [("Name", "Retro Wave")]]).
  { intros output_cols. unfold search_rows. rewrite retro_ranked.
    reflexivity. }
  split; [exact H|]. rewrite H. reflexivity.
Qed.

(* ================================================================== *)
(** * The search entry points *)

Lemma max_from_in (best : string * nat) (l : Dict.t nat) :
  In (max_from best l) (best :: l).
Proof.
  revert best. induction l as [|x l IH]; intros best; simpl; [now left|].
  destruct (snd best <? snd x).
  - right. apply IH.
  - destruct (IH best) as [H|H]; [left; exact H | right; right; exact H].
Qed.

(** The classifier never raises and names a configured table. *)
Lemma detect_domain_total (query : string) :
  exists d, detect_domain query = Ok d /\ Dict.mem CSV_CONFIG d = true.
Proof.
  unfold detect_domain.
  set (scores := keyword_scores domain_keywords (Text.lower query)).
  assert (Hk : keys scores = keys domain_keywords).
  { unfold scores, keyword_scores, keys. now rewrite map_map. }
  destruct scores as [|x l] eqn:E; [discriminate Hk|].
  cbn [max_key bind]. eexists. split; [reflexivity|].
  destruct (0 <? snd (max_from x l)); [|reflexivity].
  assert (Hin : In (fst (max_from x l)) (keys domain_keywords)).
  { rewrite <- Hk. unfold keys. apply in_map, max_from_in. }
  simpl in Hin.
  repeat (destruct Hin as [<-|Hin]; [reflexivity|]). contradiction.
Qed.

(** With [max_results = 0] the common part returns no row. *)
Lemma search_rows_zero (data : list Row) (search_cols output_cols : list string)
      (query : string) :
  search_rows data search_cols output_cols query 0 = Ok [].
Proof.
  unfold search_rows.
  destruct (ranked_ok data search_cols query) as (bm & _ & _ & Hr).
  rewrite Hr. reflexivity.
Qed.

Lemma search_domain_zero (fs : Storage) (query domain : string) :
  search_domain fs query domain 0 = Ok [].
Proof.
  unfold search_domain. destruct (Dict.get CSV_CONFIG domain); [|reflexivity].
  destruct (negb _); [reflexivity|]. apply search_rows_zero.
Qed.

(** C9. [search] with [max_results = 0] returns a reply with count 0 and
    no results, whatever the table holds, for a given table id and for
    a detected one, as soon as the file of the table exists. *)
Theorem search_zero_results (fs : Storage) (query : string)
        (domain : option string) :
  exists d,
    (domain = Some d \/ (domain = None /\ detect_domain query = Ok d))
    /\ let config := Dict.get_or CSV_CONFIG d style_config in
       (exists_ fs (path fs (file config)) = true ->
        search fs query domain 0
        = Ok [("domain", Str d); ("query", Str query);
              ("file", Str (file config)); ("count", Int 0);
              ("results", Rows [])]).
Proof.
  assert (H : forall d,
             exists_ fs (path fs (file (Dict.get_or CSV_CONFIG d
                                                      style_config))) = true ->
             search fs query (Some d) 0
             = Ok [("domain", Str d); ("query", Str query);
                   ("file", Str (file (Dict.get_or CSV_CONFIG d
                                                    style_config)));
                   ("count", Int 0); ("results", Rows [])]).
  { intros d He. unfold search. cbn [bind]. rewrite He. cbn [negb].
    rewrite search_domain_zero. reflexivity. }
  destruct domain as [d|].
  - exists d. split; [now left|]. apply H.
  - destruct (detect_domain_total query) as (d & Hd & _).
    exists d. split; [right; split; [reflexivity | exact Hd]|].
  intros config He.
    specialize (H d He). unfold search in *. rewrite Hd. exact H.
Qed.

(** The claim of [search_zero_results] for the query retro on the style
    table of the demonstration storage. *)
Lemma search_zero_results_witness :
  search demo_storage "retro" (Some "style") 0
  = Ok [("domain", Str "style"); ("query", Str "retro");
        ("file", Str "styles.csv"); ("count", Int 0); ("results", Rows [])].
Proof.
  destruct (search_zero_results demo_storage "retro" (Some "style"))
    as (d & [Hd|[Hd _]] & H); [|discriminate Hd].
  injection Hd as <-. apply H. reflexivity.
Defined.

(** The reply of [search] for a table id without configuration: the
    lookup of [search] takes the configuration of the style table in its
    place, while [search_domain] finds none and returns no row. *)
Lemma search_unknown_domain_reply (fs : Storage) (query d : string)
      (max_results : Z) :
  Dict.get CSV_CONFIG d = None ->
  search fs query (Some d) max_results
  = Ok (if exists_ fs (path fs "styles.csv")
        then [("domain", Str d); ("query", Str query);
              ("file", Str "styles.csv"); ("count", Int 0);
              ("results", Rows [])]
        else [("error", Str ("File not found: " ++ path fs "styles.csv"));
              ("domain", Str d)]).
Proof.
  intros Hd. unfold search, search_domain, Dict.get_or. cbn [bind].
  rewrite Hd. cbn [file style_config].
  destruct (exists_ fs (path fs "styles.csv")); reflexivity.
Qed.

(** C1. The code departs from the claim. The id fonts has no
    configuration, neither as a table nor as a stack. [search] reports
    no missing table for it: with every file present its reply is an
    ordinary one under the id fonts, with the file name of the style
    table, count 0 and no rows, although the first row of the style
    table holds the query literally. [search_stack] does report the same
    id, with an error that names it and lists the stacks. *)
Theorem search_unknown_domain_not_reported :
  Dict.get CSV_CONFIG "fonts" = None
  /\ Dict.get STACK_CONFIG "fonts" = None
  /\ search demo_storage "retro" (Some "fonts") 5
     = Ok [("domain", Str "fonts"); ("query", Str "retro");
           ("file", Str "styles.csv"); ("count", Int 0);
           ("results", Rows [])]
  /\ exact_at (load_csv demo_storage (path demo_storage "styles.csv"))
              "retro" (search_cols style_config) 0 = true
  /\ search_stack demo_storage "retro" "fonts" 5
     = Ok [("error",
            Str ("Unknown stack: fonts. Available: html-tailwind, react, "
                 ++ "nextjs, vue, svelte, swiftui, react-native, flutter"))].
Proof.
  split; [reflexivity|]. split; [reflexivity|].
  split; [exact (search_unknown_domain_reply demo_storage "retro" "fonts" 5
                                             eq_refl)|].
  split; reflexivity.
Qed.

(* ================================================================== *)
(** * A BM25 score above the score of the exact matches *)

Section LargeScore.

Local Open Scope R_scope.

Lemma before_asym {A : Type} (x y : A) (l : list A) :
  NoDup l -> before x y l -> ~ before y x l.
Proof.
  intros Hnd Hxy. induction Hxy as [l Hy|z l Hxy IH]; intros Hyx.
  - apply NoDup_cons_iff in Hnd. destruct Hnd as [Hx _].
    inversion Hyx as [l' Hx'|z l' Hyx'].
    + contradiction.
    + apply Hx. apply (before_in y x l Hyx').
  - apply NoDup_cons_iff in Hnd. destruct Hnd as [Hz Hnd].
    inversion Hyx as [l' Hx' Heq|z' l' Hyx'].
    + apply Hz. rewrite <- Heq. apply (before_in x y l Hxy).
    + now apply IH.
Qed.

(** A query that repeats one token counts its contribution each time. *)
Lemma doc_score_repeat (bm : BM25.t) (token : string) (n : nat)
      (doc : list string) :
  doc_score bm (repeat token n) doc = INR n * contribution bm doc token.
Proof.
  unfold doc_score.
  assert (H : forall s,
             fold_left (fun s t => s + contribution bm doc t)
                       (repeat token n) s
             = s + INR n * contribution bm doc token).
  { induction n as [|n IH]; intros s.
    - simpl. lra.
    - cbn [repeat fold_left]. rewrite IH, S_INR. lra. }
  rewrite H. lra.
Qed.

Lemma ln_ge_1 (x : R) : 3 < x -> 1 < ln x.
Proof.
  intros Hx. rewrite <- (ln_exp 1) at 1.
  apply ln_increasing; [apply exp_pos|].
  pose proof exp_le_3. lra.
Qed.

End LargeScore.

Lemma INR_lit (n : nat) : INR n = IZR (Z.of_nat n).
Proof. apply INR_IZR_INZ. Qed.

(** The BM25 score of the second row of [foo_table] for [foo_query]. *)
Lemma foo_score (bm : BM25.t) :
  fresh_index (map (doc_text ["Name"]) foo_table) bm ->
  nth_error (BM25.corpus bm) 1 = Some (repeat "foo" 65)
  /\ (150 < doc_score bm (BM25.tokenize foo_query) (repeat "foo" 65))%R.
Proof.
  intros Hfresh.
  assert (HC : BM25.corpus bm
               = [repeat "foo" 65; repeat "foo" 65; []; []; []; []; []]).
  { rewrite (fresh_corpus _ _ Hfresh). vm_compute. reflexivity. }
  split; [rewrite HC; reflexivity|].
  assert (HT : BM25.tokenize foo_query = repeat "foo" 65)
    by (vm_compute; reflexivity).
  rewrite HT, doc_score_repeat. unfold contribution.
  rewrite (fresh_idf _ _ Hfresh).
  assert (Hdf : df_count (BM25.corpus bm) "foo" = 2)
    by (rewrite HC; vm_compute; reflexivity).
  assert (HN : BM25.N bm = 7) by (rewrite (fresh_N _ _ Hfresh); reflexivity).
  rewrite Hdf, HN. cbn [Nat.ltb Nat.leb].
  assert (Htf : tf_count (repeat "foo" 65) "foo" = 65)
    by (vm_compute; reflexivity).
  assert (Hlen : length (repeat "foo" 65) = 65) by apply repeat_length.
  rewrite Htf, Hlen. unfold term_score.
  rewrite (fresh_k1 _ _ Hfresh), (fresh_b _ _ Hfresh).
  rewrite (fresh_avgdl _ _ Hfresh), HN. cbn [Nat.eqb].
  assert (Hsum : list_sum (BM25.doc_lengths bm) = 130).
  { rewrite (fresh_lengths _ _ Hfresh), HC. vm_compute. reflexivity. }
  rewrite Hsum.
  assert (Hidf : (1 < idf_value 7 2)%R).
  { unfold idf_value. apply ln_ge_1. rewrite !INR_lit. simpl Z.of_nat.
    lra. }
  revert Hidf. generalize (idf_value 7 2) as i. intros i Hi.
  rewrite !INR_lit. simpl Z.of_nat.
  replace (65 + 1.5 * (1 - 0.75 + 0.75 * 65 / (130 / 7)))%R
    with 69.3125%R by lra.
  lra.
Qed.

(** C2, as stated, fails. In [foo_table] the first row holds the query
    [foo_query] literally and the second row does not; both are in the
    merged list, and the second row, whose BM25 score exceeds 150, is
    ranked above the first. *)
Lemma bm25_above_exact_match :
  exact_at foo_table foo_query ["Name"] 0 = true
  /\ exact_at foo_table foo_query ["Name"] 1 = false
  /\ exists l sb,
      ranked foo_table ["Name"] foo_query = Ok l
      /\ In (0, 150%R) l /\ In (1, sb) l /\ (150 < sb)%R
      /\ before (1, sb) (0, 150%R) l
      /\ ~ before (0, 150%R) (1, sb) l.
Proof.
  assert (H0 : exact_at foo_table foo_query ["Name"] 0 = true)
    by (vm_compute; reflexivity).
  assert (H1 : exact_at foo_table foo_query ["Name"] 1 = false)
    by (vm_compute; reflexivity).
  split; [exact H0|]. split; [exact H1|].
  destruct (ranked_ok foo_table ["Name"] foo_query)
    as (bm & Hfit & Hfresh & Hr).
  destruct (foo_score bm Hfresh) as [Hnth Hsb].
  set (sb := doc_score bm (BM25.tokenize foo_query) (repeat "foo" 65)) in *.
  eexists. exists sb. split; [exact Hr|].
  assert (HA : In (0, 150%R)
                  (map boost (regex_search foo_table foo_query ["Name"])
                   ++ filter (admitted
                                (map fst (regex_search foo_table foo_query
                                                       ["Name"])))
                             (sort_desc (scores_of bm foo_query)))).
  { apply in_or_app. left. apply in_boost_exact. now split. }
  assert (HB : In (1, sb)
                  (map boost (regex_search foo_table foo_query ["Name"])
                   ++ filter (admitted
                                (map fst (regex_search foo_table foo_query
                                                       ["Name"])))
                             (sort_desc (scores_of bm foo_query)))).
  { apply in_or_app. right. apply in_admitted.
    split; [|split; [exact H1 | lra]].
    apply sort_desc_in. now apply scores_of_in. }
  assert (Hbefore : before (1, sb) (0, 150%R)
                      (sort_desc
                         (map boost (regex_search foo_table foo_query
                                                  ["Name"])
                          ++ filter (admitted
                                       (map fst (regex_search foo_table
                                                   foo_query ["Name"])))
                                    (sort_desc (scores_of bm foo_query)))))
    by (apply sort_desc_better; [exact HB | exact HA | exact Hsb]).
  split; [now apply sort_desc_in|]. split; [now apply sort_desc_in|].
  split; [exact Hsb|]. split; [exact Hbefore|].
  apply before_asym; [|exact Hbefore].
  destruct (merge_admission foo_table ["Name"] foo_query)
    as (bm' & l' & _ & Hr' & Hnd & _).
  rewrite Hr in Hr'. injection Hr' as <-. now apply nodup_fst.
Qed.

(* ================================================================== *)
(** * Monotonicity of the score *)

Section Monotone.

Import BM25.
Local Open Scope R_scope.

Lemma ln_le_sub1 (x : R) : 0 < x -> ln x <= x - 1.
Proof.
  intros Hx. pose proof (exp_ineq1_le (ln x)) as H.
  rewrite exp_ln in H by exact Hx. lra.
Qed.



Lemma df_count_le (corpus : list (list string)) (w : string) :
  (df_count corpus w <= length corpus)%nat.
Proof. unfold df_count. apply filter_length_le. Qed.




Variable documents : list string.
Variable bm : t.
Hypothesis Hfresh : fresh_index documents bm.

(** One step of the token loop for any term-frequency table and any
    document length. *)
Lemma score_token_any (doc_len : nat) (tfs : Dict.t nat) (s : R)
      (token : string) :
  score_token bm doc_len tfs s token
  = Ok (s + match Dict.get (idf bm) token with
            | None => 0
            | Some i => term_score (k1 bm) (b bm) (avgdl bm) i
                                   (Dict.get_or tfs token 0%nat) doc_len
            end).
Proof.
  unfold score_token.
  pose proof (fresh_idf _ _ Hfresh token) as Hidf.
  destruct (Dict.get (idf bm) token) as [i|]; [|now rewrite Rplus_0_r].
  destruct (0 <? df_count (corpus bm) token)%nat eqn:E; [|discriminate].
  apply Nat.ltb_lt in E.
  pose proof (fresh_avgdl_pos documents bm Hfresh token E) as Ha.
  rewrite py_div_ok by lra. cbn [bind].
  rewrite py_div_ok
    by (apply Rgt_not_eq, Rlt_gt,
          (denominator_pos documents bm Hfresh); exact Ha).
  reflexivity.
Qed.


End Monotone.



Section ScoreDrop.

Local Open Scope R_scope.


End ScoreDrop.


(* ================================================================== *)
(** * Further properties of the text primitives *)

Section TextMore.

Import Text.

Lemma lower_char_idem (c : ascii) : lower_char (lower_char c) = lower_char c.
Proof. destruct c as [[] [] [] [] [] [] [] []]; reflexivity. Qed.

Lemma lower_idem (s : string) : lower (lower s) = lower s.
Proof.
  unfold lower. induction s as [|c s IH]; simpl; [reflexivity|].
  now rewrite lower_char_idem, IH.
Qed.

Lemma prefix_iff (p s : string) :
  prefix p s = true <-> exists post, s = (p ++ post)%string.
Proof.
  revert p. induction s as [|b s IH]; intros [|a p]; simpl.
  - split; [now exists EmptyString | reflexivity].
  - split; [discriminate | intros [post H]; discriminate H].
  - split; [now exists (String b s) | reflexivity].
  - destruct (ascii_dec a b) as [->|Hne].
    + rewrite IH. split; intros [post H]; exists post.
      * now rewrite H.
      * now injection H.
    + split; [discriminate|]. intros [post H]. congruence.
Qed.

Lemma contains_unfold (needle hay : string) :
  contains needle hay
  = prefix needle hay
    || match hay with
       | EmptyString => false
       | String _ hay' => contains needle hay'
       end.
Proof.
  destruct hay as [|c hay]; simpl.
  - destruct needle; reflexivity.
  - destruct (prefix needle (String c hay)); reflexivity.
Qed.

Lemma contains_iff (needle hay : string) :
  contains needle hay = true
  <-> exists pre post, hay = (pre ++ needle ++ post)%string.
Proof.
  split.
  - induction hay as [|c hay IH]; rewrite contains_unfold;
      intros H; apply orb_prop in H; destruct H as [H|H];
      try discriminate H.
    + apply prefix_iff in H. destruct H as [post H].
      now exists EmptyString, post.
    + apply prefix_iff in H. destruct H as [post H].
      now exists EmptyString, post.
    + destruct (IH H) as (pre & post & Heq).
      exists (String c pre), post. simpl. now rewrite Heq.
  - intros (pre & post & Heq). subst hay.
    induction pre as [|c pre IH]; rewrite contains_unfold.
    + simpl. replace (prefix needle (needle ++ post)) with true; auto.
      symmetry. apply prefix_iff. now exists post.
    + simpl. simpl in IH. rewrite IH. apply orb_true_r.
Qed.

End TextMore.

(** X1. The substring test behind [keyword in query_lower] and behind the
    escaped pattern of the booster holds exactly when the text can be cut
    into a part in front, the needle and a part behind. *)
Theorem contains_is_substring (needle hay : string) :
  Text.contains needle hay = true
  <-> exists pre post, hay = (pre ++ needle ++ post)%string.
Proof. apply contains_iff. Qed.

(* ================================================================== *)
(** * The projection of a row *)

Lemma project_from (output_cols : list string) (row : Row)
      (d : Dict.t string) (c : string) :
  Dict.get
    (fold_left (fun d col =>
                  if Dict.mem row col
                  then Dict.set d col (Dict.get_or row col "")
                  else d)
               output_cols d) c
  = if mem_str c output_cols && Dict.mem row c then Dict.get row c
    else Dict.get d c.
Proof.
  revert d. induction output_cols as [|col cols IH]; intros d;
    cbn [fold_left]; [reflexivity|].
  rewrite IH, mem_str_cons. clear IH.
  destruct (String.eqb_spec c col) as [->|Hne]; cbn [orb].
  - unfold Dict.mem, Dict.get_or.
    destruct (Dict.get row col) as [v|] eqn:Ev.
    + rewrite andb_true_r. destruct (mem_str col cols); [reflexivity|].
      now rewrite get_set, String.eqb_refl.
    + now rewrite andb_false_r.
  - destruct (mem_str c cols && Dict.mem row c); [reflexivity|].
    destruct (Dict.mem row col); [|reflexivity].
    rewrite get_set. destruct (String.eqb_spec col c); [congruence|].
    reflexivity.
Qed.

Lemma project_nodup_from (output_cols : list string) (row : Row)
      (d : Dict.t string) :
  NoDup (keys d) ->
  NoDup (keys (fold_left (fun d col =>
                            if Dict.mem row col
                            then Dict.set d col (Dict.get_or row col "")
                            else d)
                         output_cols d)).
Proof.
  revert d. induction output_cols as [|col cols IH]; intros d Hd;
    cbn [fold_left]; [exact Hd|].
  apply IH. destruct (Dict.mem row col); [|exact Hd].
  now apply nodup_keys_set.
Qed.

(** X2. The projection of a row holds, for each output column that the row
    has, the value of the row, and nothing else: a column that is not an
    output column or that the row lacks has no entry (it is not filled
    with an empty string), and no column is listed twice. *)
Theorem project_keeps_present_columns (output_cols : list string)
        (row : Row) :
  (forall c, Dict.get (project output_cols row) c
             = if mem_str c output_cols then Dict.get row c else None)
  /\ NoDup (keys (project output_cols row)).
Proof.
  split.
  - intros c. unfold project. rewrite project_from. simpl.
    destruct (mem_str c output_cols); [|reflexivity]. simpl.
    unfold Dict.mem. now destruct (Dict.get row c).
  - unfold project. apply project_nodup_from. constructor.
Qed.

(* ================================================================== *)
(** * The classifier picks the first maximum *)

Lemma max_from_split (l done mid : Dict.t nat) (best : string * nat) :
  Forall (fun e => snd e < snd best) done ->
  Forall (fun e => snd e <= snd best) mid ->
  exists pre post,
    done ++ best :: mid ++ l = pre ++ max_from best l :: post
    /\ Forall (fun e => snd e < snd (max_from best l)) pre
    /\ Forall (fun e => snd e <= snd (max_from best l)) post.
Proof.
  revert done mid best.
  induction l as [|x l IH]; intros done mid best Hdone Hmid; simpl.
  - exists done, mid. rewrite app_nil_r. now repeat split.
  - destruct (snd best <? snd x) eqn:E.
    + apply Nat.ltb_lt in E.
      destruct (IH (done ++ best :: mid) [] x) as (pre & post & Heq & H).
      * apply Forall_app. split.
        -- eapply Forall_impl; [|exact Hdone]. simpl. intros; lia.
        -- constructor; [exact E|].
           eapply Forall_impl; [|exact Hmid]. simpl. intros; lia.
      * constructor.
      * exists pre, post. split; [|exact H].
        rewrite <- Heq. simpl. now rewrite <- app_assoc.
    + apply Nat.ltb_ge in E.
      destruct (IH done (mid ++ [x]) best) as (pre & post & Heq & H).
      * exact Hdone.
      * apply Forall_app. split; [exact Hmid|]. now repeat constructor.
      * exists pre, post. split; [|exact H].
        rewrite <- Heq. now rewrite <- app_assoc.
Qed.

(** X3. The classifier never raises. It returns the first domain of the
    keyword table whose count of keywords found in the lowercased query
    is the highest, or style when no keyword is found; the result is
    always a configured table and is never typography, which has no
    keywords. *)
Theorem detect_domain_first_maximum (query : string) :
  exists d pre best post,
    detect_domain query = Ok d
    /\ keyword_scores domain_keywords (Text.lower query)
       = pre ++ best :: post
    /\ Forall (fun e => snd e < snd best) pre
    /\ Forall (fun e => snd e <= snd best) post
    /\ d = (if 0 <? snd best then fst best else "style")
    /\ Dict.mem CSV_CONFIG d = true
    /\ d <> "typography".
Proof.
  unfold detect_domain.
  set (scores := keyword_scores domain_keywords (Text.lower query)).
  assert (Hk : keys scores = keys domain_keywords).
  { unfold scores, keyword_scores, keys. now rewrite map_map. }
  destruct scores as [|x l] eqn:E; [discriminate Hk|].
  cbn [max_key bind].
  destruct (max_from_split l [] [] x) as (pre & post & Heq & Hpre & Hpost);
    [constructor | constructor|].
  simpl in Heq.
  exists (if 0 <? snd (max_from x l) then fst (max_from x l) else "style").
  exists pre, (max_from x l), post.
  split; [reflexivity|]. split; [exact Heq|].
  split; [exact Hpre|]. split; [exact Hpost|]. split; [reflexivity|].
  assert (Hin : In (fst (max_from x l)) (keys domain_keywords)).
  { rewrite <- Hk. unfold keys. apply in_map, max_from_in. }
  destruct (0 <? snd (max_from x l)); [|split; [reflexivity|discriminate]].
  simpl in Hin.
  repeat (destruct Hin as [<-|Hin];
          [split; [reflexivity|discriminate]|]).
  contradiction.
Qed.

(* ================================================================== *)
(** * The common part of the searches never raises *)

Lemma mapM_ok_map {A B : Type} (f : A -> result B) (g : A -> B)
      (l : list A) :
  (forall x, In x l -> f x = Ok (g x)) -> mapM f l = Ok (map g l).
Proof.
  induction l as [|x l IH]; intros H; cbn [mapM map]; [reflexivity|].
  rewrite (H x) by now left. cbn [bind].
  rewrite IH by (intros y Hy; apply H; now right). reflexivity.
Qed.

Lemma in_firstn {A : Type} (x : A) (n : nat) (l : list A) :
  In x (firstn n l) -> In x l.
Proof.
  intros H. rewrite <- (firstn_skipn n l). apply in_or_app. now left.
Qed.

Lemma in_slice_to {A : Type} (x : A) (l : list A) (k : Z) :
  In x (slice_to l k) -> In x l.
Proof. unfold slice_to. destruct (0 <=? k)%Z; apply in_firstn. Qed.

Lemma slice_to_length {A : Type} (l : list A) (k : Z) :
  length (slice_to l k)
  = if (0 <=? k)%Z then Nat.min (Z.to_nat k) (length l)
    else length l - Z.to_nat (- k).
Proof.
  unfold slice_to. destruct (0 <=? k)%Z; rewrite length_firstn; lia.
Qed.

(** The positions of the ranked list are positions of the table. *)
Lemma ranked_positions (data : list Row) (search_cols : list string)
      (query : string) :
  exists l,
    ranked data search_cols query = Ok l
    /\ Forall (fun i => i < length data) (map fst l).
Proof.
  destruct (merge_admission data search_cols query)
    as (bm & l & Hfit & Hr & _ & Hin).
  exists l. split; [exact Hr|].
  destruct (fit_new (map (doc_text search_cols) data))
    as (bm' & Hfit' & Hfresh).
  rewrite Hfit in Hfit'. injection Hfit' as <-.
  apply Forall_forall. intros i Hi. apply in_map_iff in Hi.
  destruct Hi as ([i' s] & Heq & Hi). simpl in Heq. subst i'.
  apply Hin in Hi. destruct Hi as [[He _]|(_ & _ & doc & Hnth & _)].
  - apply nth_error_Some. intros E. unfold exact_at in He.
    rewrite E in He. discriminate He.
  - rewrite <- (length_map (doc_text search_cols) data).
    rewrite <- (fresh_length_corpus _ bm Hfresh).
    apply nth_error_Some. congruence.
Qed.

Lemma search_rows_ok (data : list Row) (search_cols output_cols : list string)
      (query : string) (max_results : Z) :
  exists l,
    ranked data search_cols query = Ok l
    /\ Forall (fun i => i < length data) (map fst l)
    /\ search_rows data search_cols output_cols query max_results
       = Ok (map (fun i => project output_cols (nth i data []))
                 (map fst (slice_to l max_results))).
Proof.
  destruct (ranked_positions data search_cols query) as (l & Hr & Hpos).
  exists l. split; [exact Hr|]. split; [exact Hpos|].
  unfold search_rows. rewrite Hr. cbn [bind].
  apply mapM_ok_map. intros i Hi.
  assert (Hlt : i < length data).
  { rewrite Forall_forall in Hpos. apply Hpos.
    apply in_map_iff in Hi. destruct Hi as (e & <- & He).
    apply in_map. now apply in_slice_to in He. }
  unfold py_index.
  destruct (nth_error data i) as [row|] eqn:E.
  - cbn [bind]. do 2 f_equal. symmetry. now apply nth_error_nth.
  - apply nth_error_None in E. lia.
Qed.

(** X4. The part that [search_domain] and [search_stack] share never
    raises, whatever [max_results] is: every ranked position is a
    position of the table, so no row lookup fails. It returns the
    projections of the rows at the first positions of the ranked list:
    at most [max_results] rows when that is not negative, and all but
    the last [-max_results] rows when it is negative. *)
Theorem search_rows_returns_top_rows (data : list Row)
        (search_cols output_cols : list string) (query : string)
        (max_results : Z) :
  exists l rows,
    ranked data search_cols query = Ok l
    /\ search_rows data search_cols output_cols query max_results = Ok rows
    /\ rows = map (fun i => project output_cols (nth i data []))
                  (map fst (slice_to l max_results))
    /\ Forall (fun i => i < length data) (map fst l)
    /\ length rows
       = if (0 <=? max_results)%Z
         then Nat.min (Z.to_nat max_results) (length l)
         else length l - Z.to_nat (- max_results).
Proof.
  destruct (search_rows_ok data search_cols output_cols query max_results)
    as (l & Hr & Hpos & Hs).
  exists l. eexists. split; [exact Hr|]. split; [exact Hs|].
  split; [reflexivity|]. split; [exact Hpos|].
  now rewrite !length_map, slice_to_length.
Qed.

(* ================================================================== *)
(** * The entry points never raise *)


(* ================================================================== *)
(** * The sign of a BM25 score *)

Section ScoreSign.

Import BM25.
Local Open Scope R_scope.

Lemma idf_value_pos (n f : nat) : (f <= n)%nat -> 0 < idf_value n f.
Proof.
  intros Hle. unfold idf_value. rewrite <- ln_1.
  assert (Hf := pos_INR f). apply le_INR in Hle.
  assert (0 < (INR n - INR f + 0.5) / (INR f + 0.5))
    by (apply Rdiv_lt_0_compat; lra).
  apply ln_increasing; lra.
Qed.

Lemma idf_value_antitone (n f f' : nat) :
  (f <= f')%nat -> (f' <= n)%nat -> idf_value n f' <= idf_value n f.
Proof.
  intros Hff Hfn. unfold idf_value.
  assert (Hf := pos_INR f). assert (Hle := le_INR _ _ Hff).
  assert (Hle' := le_INR _ _ Hfn).
  assert (Hq : (INR n - INR f' + 0.5) / (INR f' + 0.5)
               <= (INR n - INR f + 0.5) / (INR f + 0.5)).
  { unfold Rdiv. apply Rmult_le_compat; try lra.
    - left. apply Rinv_0_lt_compat. lra.
    - apply Rinv_le_contravar; lra. }
  assert (0 < (INR n - INR f' + 0.5) / (INR f' + 0.5))
    by (apply Rdiv_lt_0_compat; lra).
  destruct Hq as [Hq|Hq]; [|rewrite Hq; apply Rle_refl].
  left. apply ln_increasing; lra.
Qed.

Lemma term_score_sign (k1 b avgdl idf : R) (tf doc_len : nat) :
  0 < idf -> 0 < k1 + 1 ->
  0 < INR tf + k1 * (1 - b + b * INR doc_len / avgdl) ->
  0 <= term_score k1 b avgdl idf tf doc_len
  /\ (0 < term_score k1 b avgdl idf tf doc_len <-> (0 < tf)%nat).
Proof.
  intros Hi Hk HD. unfold term_score.
  set (D := INR tf + k1 * (1 - b + b * INR doc_len / avgdl)) in *.
  assert (HinvD : 0 < / D) by now apply Rinv_0_lt_compat.
  destruct tf as [|tf].
  - simpl INR. unfold Rdiv. rewrite Rmult_0_l, Rmult_0_r, Rmult_0_l.
    split; [lra|]. split; [lra | lia].
  - assert (Ht : 0 < INR (S tf)) by (apply lt_0_INR; lia).
    assert (0 < idf * (INR (S tf) * (k1 + 1)) / D).
    { apply Rdiv_lt_0_compat; [|exact HD].
      apply Rmult_lt_0_compat; [exact Hi|].
      now apply Rmult_lt_0_compat. }
    split; [lra|]. split; [lia | auto].
Qed.

Variable documents : list string.
Variable bm : t.
Hypothesis Hfresh : fresh_index documents bm.

Lemma df_count_pos_in (doc : list string) (token : string) :
  In doc (corpus bm) -> In token doc ->
  (0 < df_count (corpus bm) token)%nat.
Proof.
  intros Hdoc Htok. unfold df_count.
  assert (H : In doc (filter (mem_str token) (corpus bm))).
  { apply filter_In. split; [exact Hdoc|]. now apply mem_str_in. }
  destruct (filter (mem_str token) (corpus bm)); [contradiction|].
  simpl. lia.
Qed.

Lemma contribution_sign (doc : list string) (token : string) :
  In doc (corpus bm) ->
  0 <= contribution bm doc token
  /\ (0 < contribution bm doc token <-> In token doc).
Proof.
  intros Hdoc. unfold contribution.
  rewrite (fresh_idf _ _ Hfresh).
  destruct (0 <? df_count (corpus bm) token)%nat eqn:E.
  - apply Nat.ltb_lt in E.
    pose proof (fresh_avgdl_pos documents bm Hfresh token E) as Ha.
    destruct (term_score_sign (k1 bm) (b bm) (avgdl bm)
                (idf_value (N bm) (df_count (corpus bm) token))
                (tf_count doc token) (length doc)) as [H0 Hpos].
    + apply idf_value_pos. rewrite (fresh_N _ _ Hfresh).
      rewrite <- (fresh_length_corpus documents bm Hfresh).
      apply df_count_le.
    + rewrite (fresh_k1 _ _ Hfresh). lra.
    + now apply (denominator_pos documents bm Hfresh).
    + split; [exact H0|]. rewrite Hpos. unfold tf_count.
      symmetry. apply count_occ_In.
  - apply Nat.ltb_ge in E. split; [lra|]. split; [lra|].
    intros Htok. pose proof (df_count_pos_in doc token Hdoc Htok). lia.
Qed.

Lemma doc_score_sign (tokens doc : list string) :
  In doc (corpus bm) ->
  0 <= doc_score bm tokens doc
  /\ (0 < doc_score bm tokens doc
      <-> exists token, In token tokens /\ In token doc).
Proof.
  intros Hdoc. unfold doc_score.
  assert (H : forall s,
             0 <= s ->
             let r := fold_left (fun s t => s + contribution bm doc t)
                                tokens s in
             s <= r
             /\ (s < r <-> exists token, In token tokens /\ In token doc)).
  { induction tokens as [|t tokens IH]; intros s Hs; cbn [fold_left].
    - split; [lra|]. split; [lra|]. intros (token & [] & _).
    - destruct (contribution_sign doc t Hdoc) as [Hc0 Hc].
      destruct (IH (s + contribution bm doc t)) as [Hle Hlt]; [lra|].
      split; [lra|]. split.
      + intros Hr.
        destruct (Rlt_dec 0 (contribution bm doc t)) as [Hp|Hn].
        * exists t. split; [now left | now apply Hc].
        * assert (Hz : contribution bm doc t = 0) by lra.
          rewrite Hz, Rplus_0_r in Hlt, Hr.
          destruct (proj1 Hlt Hr) as (token & Hin & Hd).
          exists token. split; [now right | exact Hd].
      + intros (token & [<-|Hin] & Hd).
        * apply Hc in Hd. lra.
        * assert (Hex : exists token, In token tokens /\ In token doc)
            by (exists token; now split).
          apply Hlt in Hex. lra. }
  destruct (H 0 (Rle_refl 0)) as [H0 Hpos]. now split.
Qed.

End ScoreSign.

(** X7. After [fit] on any documents, every score that [score] returns
    is non-negative, and the score of a document is strictly positive
    exactly when the document shares a token with the query. *)
Theorem bm25_score_positive_iff_shared_token (documents : list string)
        (query : string) :
  exists bm l,
    BM25.fit BM25.new documents = Ok bm
    /\ BM25.score bm query = Ok l
    /\ forall idx s,
        In (idx, s) l ->
        (0 <= s)%R
        /\ ((0 < s)%R
            <-> exists text token,
                nth_error documents idx = Some text
                /\ In token (BM25.tokenize query)
                /\ In token (BM25.tokenize text)).
Proof.
  destruct (fit_new documents) as (bm & Hfit & Hfresh).
  exists bm, (sort_desc (scores_of bm query)).
  split; [exact Hfit|]. split; [now apply (score_fresh documents)|].
  intros idx s Hin. apply sort_desc_in, in_scores_of in Hin.
  destruct Hin as (doc & Hnth & ->).
  destruct (doc_score_sign documents bm Hfresh (BM25.tokenize query) doc
              (nth_error_In _ _ Hnth)) as [H0 Hpos].
  split; [exact H0|]. rewrite Hpos.
  rewrite (fresh_corpus _ _ Hfresh) in Hnth.
  split.
  - intros (token & Hq & Hd).
    destruct (nth_error documents idx) as [text|] eqn:E.
    + rewrite (map_nth_error _ _ _ E) in Hnth. injection Hnth as <-.
      now exists text, token.
    + apply nth_error_None in E.
      assert (nth_error (map BM25.tokenize documents) idx = None)
        by (apply nth_error_None; now rewrite length_map).
      congruence.
  - intros (text & token & Ht & Hq & Hd).
    rewrite (map_nth_error _ _ _ Ht) in Hnth. injection Hnth as <-.
    now exists token.
Qed.

(** The claim of [bm25_score_positive_iff_shared_token] on two
    documents: the second one shares the token retro with the query. *)
Lemma bm25_score_positive_iff_shared_token_witness :
  exists bm l,
    BM25.fit BM25.new ["Neon Glow"; "Retro Wave"] = Ok bm
    /\ BM25.score bm "retro" = Ok l
    /\ forall s, In (1, s) l -> (0 < s)%R.
Proof.
  destruct (bm25_score_positive_iff_shared_token
              ["Neon Glow"; "Retro Wave"] "retro")
    as (bm & l & Hfit & Hscore & H).
  exists bm, l. split; [exact Hfit|]. split; [exact Hscore|].
  intros s Hin. apply (H 1 s Hin).
  exists "Retro Wave", "retro".
  split; [reflexivity|]. split; vm_compute; auto.
Defined.

(* ================================================================== *)
(** * The shape of the ranked list *)

(** X8. The ranked list of a search is in descending score order, holds
    no position twice, and every score in it is strictly positive. *)
Theorem ranked_descending_positive (data : list Row)
        (search_cols : list string) (query : string) :
  exists l,
    ranked data search_cols query = Ok l
    /\ StronglySorted score_ge l
    /\ NoDup (map fst l)
    /\ Forall (fun e => (0 < snd e)%R) l.
Proof.
  destruct (ranked_ok data search_cols query) as (bm & _ & _ & Hr).
  destruct (merge_admission data search_cols query)
    as (bm' & l & _ & Hr' & Hnd & Hin).
  exists l. split; [exact Hr'|].
  rewrite Hr in Hr'. injection Hr' as Hl.
  split; [rewrite <- Hl; apply sort_desc_sorted|].
  split; [exact Hnd|].
  apply Forall_forall. intros [i s] He. apply Hin in He. simpl.
  destruct He as [[_ ->]|(_ & Hs & _)]; [lra | exact Hs].
Qed.

(** X9. A row is in the ranked list exactly when it holds the query
    literally in a search column or its document shares a token with the
    query. *)
Theorem ranked_rows_match_or_share_token (data : list Row)
        (search_cols : list string) (query : string) :
  exists l,
    ranked data search_cols query = Ok l
    /\ forall i,
        In i (map fst l)
        <-> exact_at data query search_cols i = true
            \/ exists row token,
                nth_error data i = Some row
                /\ In token (BM25.tokenize query)
                /\ In token (BM25.tokenize (doc_text search_cols row)).
Proof.
  destruct (merge_admission data search_cols query)
    as (bm & l & Hfit & Hr & _ & Hin).
  destruct (fit_new (map (doc_text search_cols) data))
    as (bm' & Hfit' & Hfresh).
  rewrite Hfit in Hfit'. injection Hfit' as <-.
  exists l. split; [exact Hr|].
  assert (Hcorpus : forall i row,
             nth_error data i = Some row ->
             nth_error (BM25.corpus bm) i
             = Some (BM25.tokenize (doc_text search_cols row))).
  { intros i row Hnth. rewrite (fresh_corpus _ _ Hfresh).
    apply map_nth_error. now apply map_nth_error. }
  intros i. split.
  - intros Hi. apply in_map_iff in Hi.
    destruct Hi as ([i' s] & Heq & Hi). simpl in Heq. subst i'.
    apply Hin in Hi.
    destruct Hi as [[He _]|(_ & Hs & doc & Hnth & ->)]; [now left|].
    right.
    destruct (doc_score_sign _ bm Hfresh (BM25.tokenize query) doc
                (nth_error_In _ _ Hnth)) as [_ Hpos].
    apply Hpos in Hs. destruct Hs as (token & Hq & Hd).
    destruct (nth_error data i) as [row|] eqn:E.
    + rewrite (Hcorpus i row E) in Hnth. injection Hnth as <-.
      now exists row, token.
    + exfalso. apply nth_error_None in E.
      assert (nth_error (BM25.corpus bm) i = None).
      { apply nth_error_None.
        rewrite (fresh_length_corpus _ bm Hfresh), length_map. exact E. }
      congruence.
  - intros H.
    destruct (exact_at data query search_cols i) eqn:He.
    + apply in_map_iff. exists (i, 150%R). split; [reflexivity|].
      apply Hin. left. now split.
    + destruct H as [H|(row & token & Hnth & Hq & Hd)]; [discriminate H|].
      pose proof (Hcorpus i row Hnth) as Hc.
      destruct (doc_score_sign _ bm Hfresh (BM25.tokenize query)
                  (BM25.tokenize (doc_text search_cols row))
                  (nth_error_In _ _ Hc)) as [_ Hpos].
      apply in_map_iff.
      exists (i, doc_score bm (BM25.tokenize query)
                           (BM25.tokenize (doc_text search_cols row))).
      split; [reflexivity|]. apply Hin. right.
      split; [exact He|]. split.
      * apply Hpos. now exists token.
      * now exists (BM25.tokenize (doc_text search_cols row)).
Qed.

Lemma regex_hits_before (query : string) (search_cols : list string)
      (data : list Row) (start a b : nat) :
  let hits :=
    flat_map (fun entry : nat * Row =>
                if row_matches query search_cols (snd entry)
                then [(fst entry, 100%R)] else [])
             (combine (seq start (length data)) data) in
  a < b -> In (a, 100%R) hits -> In (b, 100%R) hits ->
  before (a, 100%R) (b, 100%R) hits.
Proof.
  revert start. induction data as [|row data IH]; intros start hits Hab Ha Hb;
    [contradiction|].
  subst hits. simpl in *.
  pose proof (proj1 (regex_hits_from query search_cols data (S start)))
    as Htail.
  apply in_app_or in Ha. apply in_app_or in Hb.
  assert (Hb' : In (b, 100%R)
                   (flat_map
                      (fun entry : nat * Row =>
                         if row_matches query search_cols (snd entry)
                         then [(fst entry, 100%R)] else [])
                      (combine (seq (S start) (length data)) data))).
  { destruct Hb as [Hb|Hb]; [|exact Hb]. exfalso.
    destruct (row_matches query search_cols row); [|contradiction].
    destruct Hb as [Hb|[]]. injection Hb as <-.
    destruct Ha as [Ha|Ha].
    - destruct Ha as [Ha|[]]. injection Ha as <-. lia.
    - apply Htail in Ha. lia. }
  destruct Ha as [Ha|Ha].
  - destruct (row_matches query search_cols row); [|contradiction].
    destruct Ha as [Ha|[]]. injection Ha as <-.
    simpl. now apply before_here.
  - destruct (row_matches query search_cols row); simpl.
    + apply before_later. now apply IH.
    + now apply IH.
Qed.

Lemma before_map {A B : Type} (f : A -> B) (x y : A) (l : list A) :
  before x y l -> before (f x) (f y) (map f l).
Proof.
  induction 1 as [l Hy|z l Hb IH]; simpl.
  - apply before_here. now apply in_map.
  - now apply before_later.
Qed.

(** X10. Exact matches keep the order of the table: of two rows that
    hold the query literally, the one that comes first in the table is
    ranked above the other. *)
Theorem exact_matches_in_table_order (data : list Row)
        (search_cols : list string) (query : string) (a b : nat) :
  a < b ->
  exact_at data query search_cols a = true ->
  exact_at data query search_cols b = true ->
  exists l,
    ranked data search_cols query = Ok l
    /\ before (a, 150%R) (b, 150%R) l.
Proof.
  intros Hab Ha Hb.
  destruct (ranked_ok data search_cols query) as (bm & _ & _ & Hr).
  eexists. split; [exact Hr|].
  apply sort_desc_stable; [|simpl; lra].
  apply before_app_l.
  assert (H : before (a, 100%R) (b, 100%R)
                     (regex_search data query search_cols)).
  { apply (regex_hits_before query search_cols data 0 a b Hab);
      apply regex_search_in; now split. }
  apply (before_map boost) in H. unfold boost in H at 1 2. simpl in H.
  replace (100 + 50)%R with 150%R in H by lra. exact H.
Qed.

(** The claim of [exact_matches_in_table_order] for the two rows of
    [style_rows], which both hold the word general. *)
Lemma exact_matches_in_table_order_witness :
  exists l,
    ranked style_rows (search_cols style_config) "general" = Ok l
    /\ before (0, 150%R) (1, 150%R) l.
Proof.
  apply (exact_matches_in_table_order style_rows (search_cols style_config)
           "general" 0 1); [lia | reflexivity | reflexivity].
Defined.

(* ================================================================== *)
(** * The empty query *)

Lemma sort_desc_const (c : R) (l : list (nat * R)) :
  Forall (fun e => snd e = c) l -> sort_desc l = l.
Proof.
  induction 1 as [|x l Hx Hl IH]; simpl; [reflexivity|].
  rewrite IH. destruct Hl as [|y l Hy Hl]; simpl; [reflexivity|].
  destruct (Rlt_dec (snd x) (snd y)) as [Hlt|_]; [|reflexivity].
  rewrite Hx, Hy in Hlt. exfalso. exact (Rlt_irrefl _ Hlt).
Qed.

Lemma map_nth_seq_id {A : Type} (d : A) (l : list A) :
  map (fun i => nth i l d) (seq 0 (length l)) = l.
Proof.
  induction l as [|x l IH]; simpl; [reflexivity|].
  f_equal. rewrite <- seq_shift, map_map. exact IH.
Qed.

Lemma pattern_search_empty (value : string) : pattern_search "" value = true.
Proof.
  unfold pattern_search. simpl Text.lower at 1.
  rewrite contains_unfold. now destruct (Text.lower value).
Qed.

Lemma row_matches_empty (search_cols : list string) (row : Row) :
  row_matches "" search_cols row = existsb (Dict.mem row) search_cols.
Proof.
  unfold row_matches. induction search_cols as [|col cols IH]; simpl;
    [reflexivity|].
  now rewrite pattern_search_empty, andb_true_r, IH.
Qed.

Lemma regex_hits_all (query : string) (search_cols : list string)
      (data : list Row) (start : nat) :
  Forall (fun row => row_matches query search_cols row = true) data ->
  flat_map (fun entry : nat * Row =>
              if row_matches query search_cols (snd entry)
              then [(fst entry, 100%R)] else [])
           (combine (seq start (length data)) data)
  = map (fun i => (i, 100%R)) (seq start (length data)).
Proof.
  intros H. revert start. induction H as [|row data Hrow Hdata IH];
    intros start; simpl; [reflexivity|].
  now rewrite Hrow, IH.
Qed.

(** X11. The empty query matches every row that has a search column.
    On a table whose rows all have one, the ranked list is the whole
    table in table order, every row with score 150, and the search
    returns the projections of the first [max_results] rows. *)
Theorem empty_query_returns_first_rows (data : list Row)
        (search_cols output_cols : list string) (max_results : Z) :
  Forall (fun row => existsb (Dict.mem row) search_cols = true) data ->
  (0 <= max_results)%Z ->
  ranked data search_cols ""
  = Ok (map (fun i => (i, 150%R)) (seq 0 (length data)))
  /\ search_rows data search_cols output_cols "" max_results
     = Ok (map (project output_cols) (firstn (Z.to_nat max_results) data)).
Proof.
  intros Hrows Hk.
  assert (Hr : ranked data search_cols ""
               = Ok (map (fun i => (i, 150%R)) (seq 0 (length data)))).
  { destruct (ranked_ok data search_cols "") as (bm & _ & _ & Hr).
    rewrite Hr. f_equal.
    assert (Hnone : filter (admitted
                              (map fst (regex_search data "" search_cols)))
                           (sort_desc (scores_of bm "")) = []).
    { destruct (filter _ _) as [|[i s] rest] eqn:E; [reflexivity|].
      exfalso.
      assert (Hin : In (i, s)
                       (filter (admitted
                                  (map fst (regex_search data ""
                                                         search_cols)))
                               (sort_desc (scores_of bm ""))))
        by (rewrite E; now left).
      apply in_admitted in Hin. destruct Hin as (Hin & _ & Hs).
      apply sort_desc_in, in_scores_of in Hin.
      destruct Hin as (doc & _ & ->).
      unfold doc_score in Hs. simpl in Hs. lra. }
    rewrite Hnone, app_nil_r.
    unfold regex_search, enumerate. rewrite regex_hits_all.
    - rewrite map_map.
      rewrite (map_ext _ (fun i => (i, 150%R)))
        by (intros i; unfold boost; simpl; f_equal; lra).
      apply (sort_desc_const 150%R).
      apply Forall_forall. intros e He. apply in_map_iff in He.
      now destruct He as (i & <- & _).
    - eapply Forall_impl; [|exact Hrows].
      intros row H. now rewrite row_matches_empty. }
  split; [exact Hr|].
  destruct (search_rows_ok data search_cols output_cols "" max_results)
    as (l & Hr' & _ & Hs).
  rewrite Hr in Hr'. injection Hr' as <-. rewrite Hs. f_equal.
  unfold slice_to. replace (0 <=? max_results)%Z with true
    by (symmetry; now apply Z.leb_le).
  rewrite firstn_map, !map_map. simpl.
  rewrite <- (map_map (fun i => nth i data []) (project output_cols)).
  now rewrite <- firstn_map, map_nth_seq_id.
Qed.

(** The claim of [empty_query_returns_first_rows] on [retro_table] with
    at most two results. *)
Lemma empty_query_returns_first_rows_witness :
  ranked retro_table ["Name"] ""
  = Ok (map (fun i => (i, 150%R)) (seq 0 (length retro_table)))
  /\ search_rows retro_table ["Name"] ["Name"] "" 2
     = Ok (map (project ["Name"]) (firstn (Z.to_nat 2) retro_table)).
Proof.
  apply (empty_query_returns_first_rows retro_table ["Name"] ["Name"] 2).
  - repeat constructor.
  - lia.
Defined.

(* ================================================================== *)
(** * [fit] on a used object, and the idf table *)

(** X12. [fit] never raises, on a new object or on a used one, and it
    does not reset the counters: after [fit] on documents that are not
    empty, the document frequency of every word is what the object held
    before plus the number of new documents with the word. On no
    document, [fit] returns early: it sets the corpus and N = 0 and
    leaves lengths, avgdl, counters and idf as they were. *)
Theorem fit_accumulates_document_frequencies (self : BM25.t)
        (documents : list string) :
  exists bm,
    BM25.fit self documents = Ok bm
    /\ BM25.corpus bm = map BM25.tokenize documents
    /\ BM25.N bm = length documents
    /\ (documents <> [] ->
        forall w,
          Dict.get_or (BM25.doc_freqs bm) w 0
          = Dict.get_or (BM25.doc_freqs self) w 0
            + df_count (map BM25.tokenize documents) w)
    /\ (documents = [] ->
        BM25.doc_lengths bm = BM25.doc_lengths self
        /\ BM25.avgdl bm = BM25.avgdl self
        /\ BM25.doc_freqs bm = BM25.doc_freqs self
        /\ BM25.idf bm = BM25.idf self).
Proof.
  destruct (fit_total self documents) as (bm & Hfit & Hc & HN).
  exists bm. split; [exact Hfit|]. split; [exact Hc|]. split; [exact HN|].
  split.
  - intros Hne w.
    destruct (fit_doc_freqs self documents Hne) as (bm' & Hfit' & Hdf).
    rewrite Hfit in Hfit'. injection Hfit' as <-.
    rewrite Hdf. apply doc_freqs_get.
  - intros ->. unfold BM25.fit in Hfit. simpl in Hfit.
    injection Hfit as <-. repeat split.
Qed.

(** The claim of [fit_accumulates_document_frequencies] for a second
    [fit] on a fitted object: the word retro is counted twice although
    one document of the second corpus holds it. *)
Lemma fit_accumulates_document_frequencies_witness :
  exists bm1 bm2,
    BM25.fit BM25.new ["retro wave"] = Ok bm1
    /\ BM25.fit bm1 ["retro glow"] = Ok bm2
    /\ Dict.get_or (BM25.doc_freqs bm2) "retro" 0
       = Dict.get_or (BM25.doc_freqs bm1) "retro" 0
         + df_count (map BM25.tokenize ["retro glow"]) "retro".
Proof.
  destruct (fit_accumulates_document_frequencies BM25.new ["retro wave"])
    as (bm1 & H1 & _).
  destruct (fit_accumulates_document_frequencies bm1 ["retro glow"])
    as (bm2 & H2 & _ & _ & Hdf & _).
  exists bm1, bm2. split; [exact H1|]. split; [exact H2|].
  apply Hdf. discriminate.
Defined.

Lemma df_count_pos_iff (corpus : list (list string)) (w : string) :
  0 < df_count corpus w <-> exists doc, In doc corpus /\ In w doc.
Proof.
  unfold df_count. split.
  - intros H. destruct (filter (mem_str w) corpus) as [|doc rest] eqn:E;
      [simpl in H; lia|].
    assert (Hin : In doc (filter (mem_str w) corpus))
      by (rewrite E; now left).
    apply filter_In in Hin. destruct Hin as [Hd Hw].
    exists doc. split; [exact Hd | now apply mem_str_in].
  - intros (doc & Hd & Hw).
    assert (Hin : In doc (filter (mem_str w) corpus)).
    { apply filter_In. split; [exact Hd | now apply mem_str_in]. }
    destruct (filter (mem_str w) corpus); [contradiction | simpl; lia].
Qed.

(** X13. The idf table of a fitted index has an entry exactly for the
    words that occur in some document; every entry is strictly positive,
    and a word that occurs in fewer documents has an entry at least as
    large. *)
Theorem idf_positive_and_antitone (documents : list string) :
  exists bm,
    BM25.fit BM25.new documents = Ok bm
    /\ (forall w,
           Dict.mem (BM25.idf bm) w = true
           <-> exists text, In text documents /\ In w (BM25.tokenize text))
    /\ (forall w i, Dict.get (BM25.idf bm) w = Some i -> (0 < i)%R)
    /\ (forall w w' i i',
           Dict.get (BM25.idf bm) w = Some i ->
           Dict.get (BM25.idf bm) w' = Some i' ->
           df_count (BM25.corpus bm) w <= df_count (BM25.corpus bm) w' ->
           (i' <= i)%R).
Proof.
  destruct (fit_new documents) as (bm & Hfit & Hfresh).
  exists bm. split; [exact Hfit|].
  assert (Hle : forall w, df_count (BM25.corpus bm) w <= BM25.N bm).
  { intros w. rewrite (fresh_N _ _ Hfresh).
    rewrite <- (fresh_length_corpus documents bm Hfresh).
    apply df_count_le. }
  split; [|split].
  - intros w. unfold Dict.mem. rewrite (fresh_idf _ _ Hfresh).
    destruct (0 <? df_count (BM25.corpus bm) w) eqn:E.
    + apply Nat.ltb_lt, df_count_pos_iff in E.
      destruct E as (doc & Hd & Hw).
      rewrite (fresh_corpus _ _ Hfresh) in Hd. apply in_map_iff in Hd.
      destruct Hd as (text & <- & Ht).
      split; [intros _; now exists text | reflexivity].
    + split; [discriminate|]. intros (text & Ht & Hw). exfalso.
      apply Nat.ltb_ge in E.
      assert (0 < df_count (BM25.corpus bm) w); [|lia].
      apply df_count_pos_iff. exists (BM25.tokenize text).
      split; [|exact Hw]. rewrite (fresh_corpus _ _ Hfresh).
      now apply in_map.
  - intros w i. rewrite (fresh_idf _ _ Hfresh).
    destruct (0 <? df_count (BM25.corpus bm) w); [|discriminate].
    intros H. injection H as <-. apply idf_value_pos, Hle.
  - intros w w' i i'. rewrite !(fresh_idf _ _ Hfresh).
    destruct (0 <? df_count (BM25.corpus bm) w); [|discriminate].
    destruct (0 <? df_count (BM25.corpus bm) w'); [|discriminate].
    intros H H'. injection H as <-. injection H' as <-.
    intros Hdf. now apply idf_value_antitone.
Qed.

(** The claim of [idf_positive_and_antitone] on two documents: the word
    retro has an entry, and it is positive. *)
Lemma idf_positive_and_antitone_witness :
  exists bm i,
    BM25.fit BM25.new ["Neon Glow"; "Retro Wave"] = Ok bm
    /\ Dict.get (BM25.idf bm) "retro" = Some i
    /\ (0 < i)%R.
Proof.
  destruct (idf_positive_and_antitone ["Neon Glow"; "Retro Wave"])
    as (bm & Hfit & Hmem & Hpos & _).
  assert (Hin : Dict.mem (BM25.idf bm) "retro" = true).
  { apply Hmem. exists "Retro Wave". split; vm_compute; auto. }
  unfold Dict.mem in Hin.
  destruct (Dict.get (BM25.idf bm) "retro") as [i|] eqn:E;
    [|discriminate Hin].
  exists bm, i. split; [exact Hfit|]. split; [exact E|].
  apply (Hpos "retro" i E).
Defined.

(* ================================================================== *)
(** * Letter case *)

Section LetterCase.

Import Text.

Lemma smap_app (f : ascii -> ascii) (s1 s2 : string) :
  smap f (s1 ++ s2) = (smap f s1 ++ smap f s2)%string.
Proof.
  induction s1 as [|c s1 IH]; simpl; [reflexivity|]. now rewrite IH.
Qed.

Lemma lower_join (parts : list string) :
  lower (join " " parts) = join " " (map lower parts).
Proof.
  unfold join, lower.
  induction parts as [|x [|y parts] IH]; try reflexivity.
  change (String.concat " " (x :: y :: parts))
    with (x ++ " " ++ String.concat " " (y :: parts))%string.
  change (String.concat " " (map (smap lower_char) (x :: y :: parts)))
    with (smap lower_char x ++ " "
          ++ String.concat " " (map (smap lower_char) (y :: parts)))%string.
  now rewrite !smap_app, IH.
Qed.

Lemma tokenize_lower (text : string) :
  BM25.tokenize (lower text) = BM25.tokenize text.
Proof. unfold BM25.tokenize. now rewrite lower_idem. Qed.

Lemma get_lower_row (row : Row) (col : string) :
  Dict.get (lower_row row) col = option_map lower (Dict.get row col).
Proof.
  induction row as [|[k v] row IH]; simpl; [reflexivity|].
  destruct (String.eqb k col); [reflexivity | exact IH].
Qed.

Lemma doc_text_lower_row (search_cols : list string) (row : Row) :
  doc_text search_cols (lower_row row) = lower (doc_text search_cols row).
Proof.
  unfold doc_text. rewrite lower_join, map_map. f_equal.
  apply map_ext. intros col. unfold Dict.get_or.
  rewrite get_lower_row. now destruct (Dict.get row col).
Qed.

Lemma row_matches_lower_row (query : string) (search_cols : list string)
      (row : Row) :
  row_matches query search_cols (lower_row row)
  = row_matches query search_cols row.
Proof.
  unfold row_matches. induction search_cols as [|col cols IH]; simpl;
    [reflexivity|].
  rewrite IH. f_equal. unfold Dict.mem, Dict.get_or, pattern_search.
  rewrite get_lower_row.
  destruct (Dict.get row col); simpl; [|reflexivity].
  now rewrite lower_idem.
Qed.

Lemma regex_hits_map (f : Row -> Row) (query : string)
      (search_cols : list string) (data : list Row) (start : nat) :
  (forall row, row_matches query search_cols (f row)
               = row_matches query search_cols row) ->
  flat_map (fun entry : nat * Row =>
              if row_matches query search_cols (snd entry)
              then [(fst entry, 100%R)] else [])
           (combine (seq start (length (map f data))) (map f data))
  = flat_map (fun entry : nat * Row =>
                if row_matches query search_cols (snd entry)
                then [(fst entry, 100%R)] else [])
             (combine (seq start (length data)) data).
Proof.
  intros Hf. revert start. induction data as [|row data IH]; intros start;
    simpl; [reflexivity|].
  now rewrite Hf, IH.
Qed.

Lemma fit_same_tokens (self : BM25.t) (docs docs' : list string) :
  map BM25.tokenize docs' = map BM25.tokenize docs ->
  BM25.fit self docs' = BM25.fit self docs.
Proof. intros H. unfold BM25.fit. now rewrite H. Qed.

End LetterCase.

(** X14. Letter case is ignored. Two queries that are equal up to
    letter case are classified to the same domain and give the same
    ranked list, and putting every value of the table in lower case does
    not change the ranked list. *)
Theorem ranking_ignores_letter_case (data : list Row)
        (search_cols : list string) (query query' : string) :
  Text.lower query' = Text.lower query ->
  detect_domain query' = detect_domain query
  /\ ranked data search_cols query' = ranked data search_cols query
  /\ ranked (map lower_row data) search_cols query
     = ranked data search_cols query.
Proof.
  intros Hq. split; [|split].
  - unfold detect_domain. now rewrite Hq.
  - unfold ranked, BM25.score, BM25.tokenize, regex_search, row_matches,
      pattern_search. now rewrite Hq.
  - unfold ranked.
    rewrite (fit_same_tokens BM25.new
               (map (doc_text search_cols) data)
               (map (doc_text search_cols) (map lower_row data))).
    + unfold regex_search, enumerate.
      rewrite (regex_hits_map lower_row query search_cols data 0
                 (row_matches_lower_row query search_cols)).
      reflexivity.
    + rewrite !map_map. apply map_ext. intros row.
      rewrite doc_text_lower_row. apply tokenize_lower.
Qed.

(** The claim of [ranking_ignores_letter_case] for the queries RETRO
    and Retro on [retro_table]. *)
Lemma ranking_ignores_letter_case_witness :
  detect_domain "RETRO" = detect_domain "Retro"
  /\ ranked retro_table ["Name"] "RETRO" = ranked retro_table ["Name"] "Retro"
  /\ ranked (map lower_row retro_table) ["Name"] "Retro"
     = ranked retro_table ["Name"] "Retro".
Proof.
  exact (ranking_ignores_letter_case retro_table ["Name"] "Retro" "RETRO"
                                     eq_refl).
Defined.

(* ================================================================== *)
(** * Tokens tokenize to themselves *)

Section TokenRoundTrip.

Import Text.

Lemma istoken_facts (c : ascii) :
  istoken c = true ->
  lower_char c = c
  /\ (if isword c || isspace c then c else " "%char) = c
  /\ isspace c = false.
Proof.
  destruct c as [[] [] [] [] [] [] [] []]; intros H;
    try discriminate H; repeat split.
Qed.

Lemma token_or_space_lower (c : ascii) :
  istoken c || (code c =? 32) = true -> lower_char c = c.
Proof.
  destruct c as [[] [] [] [] [] [] [] []]; intros H;
    try discriminate H; reflexivity.
Qed.

Lemma token_or_space_kept (c : ascii) :
  istoken c || (code c =? 32) = true ->
  (if isword c || isspace c then c else " "%char) = c.
Proof.
  destruct c as [[] [] [] [] [] [] [] []]; intros H;
    try discriminate H; reflexivity.
Qed.

Lemma smap_id_on (f : ascii -> ascii) (p : ascii -> bool) (s : string) :
  (forall c, p c = true -> f c = c) ->
  all_chars p s = true -> smap f s = s.
Proof.
  intros Hf. induction s as [|c s IH]; simpl; [reflexivity|].
  intros H. apply andb_prop in H. destruct H as [Hc Hs].
  now rewrite (Hf c Hc), IH.
Qed.

Lemma all_chars_join (p : ascii -> bool) (parts : list string) :
  p " "%char = true ->
  Forall (fun w => all_chars p w = true) parts ->
  all_chars p (join " " parts) = true.
Proof.
  intros Hsp H. unfold join.
  induction H as [|x parts Hx Hparts IH]; [reflexivity|].
  destruct parts as [|y parts]; [exact Hx|].
  change (String.concat " " (x :: y :: parts))
    with (x ++ " " ++ String.concat " " (y :: parts))%string.
  rewrite !all_chars_app, Hx, IH. simpl. now rewrite Hsp.
Qed.

Lemma all_chars_weaken (p q : ascii -> bool) (s : string) :
  (forall c, p c = true -> q c = true) ->
  all_chars p s = true -> all_chars q s = true.
Proof.
  intros Hpq. induction s as [|c s IH]; simpl; [reflexivity|].
  intros H. apply andb_prop in H. destruct H as [Hc Hs].
  now rewrite (Hpq c Hc), IH.
Qed.

Lemma append_empty_r (s : string) : (s ++ "")%string = s.
Proof. induction s as [|c s IH]; simpl; [reflexivity|]. now rewrite IH. Qed.

Lemma append_assoc (s1 s2 s3 : string) :
  ((s1 ++ s2) ++ s3)%string = (s1 ++ s2 ++ s3)%string.
Proof. induction s1 as [|c s1 IH]; simpl; [reflexivity|]. now rewrite IH. Qed.

(** Reading a word without separator extends the current run. *)
Lemma split_from_word (w cur rest : string) :
  all_chars (fun c => negb (isspace c)) w = true ->
  split_from cur (w ++ rest) = split_from (cur ++ w) rest.
Proof.
  revert cur. induction w as [|c w IH]; intros cur H; simpl.
  - now rewrite append_empty_r.
  - simpl in H. apply andb_prop in H. destruct H as [Hc Hw].
    apply negb_true_iff in Hc. rewrite Hc, IH by exact Hw.
    now rewrite append_assoc.
Qed.

Lemma split_join (words : list string) :
  Forall (fun w => w <> EmptyString
                   /\ all_chars (fun c => negb (isspace c)) w = true)
         words ->
  split (join " " words) = words.
Proof.
  unfold split, join.
  induction 1 as [|x words [Hne Hx] Hwords IH]; [reflexivity|].
  destruct words as [|y words].
  - simpl String.concat. rewrite <- (append_empty_r x) at 1.
    rewrite split_from_word by exact Hx. simpl.
    destruct x; [contradiction | reflexivity].
  - change (String.concat " " (x :: y :: words))
      with (x ++ " " ++ String.concat " " (y :: words))%string.
    rewrite split_from_word by exact Hx.
    cbn [append split_from]. change (isspace " ") with true. cbv iota.
    rewrite IH. destruct x; [contradiction | reflexivity].
Qed.

Lemma tokenize_of_tokens (words : list string) :
  Forall (fun w => 2 < String.length w /\ all_chars istoken w = true)
         words ->
  BM25.tokenize (join " " words) = words.
Proof.
  intros H. unfold BM25.tokenize.
  assert (Hjoin : all_chars (fun c => istoken c || (code c =? 32))
                            (join " " words) = true).
  { apply all_chars_join; [reflexivity|].
    eapply Forall_impl; [|exact H]. intros w [_ Hw].
    eapply all_chars_weaken; [|exact Hw]. intros c Hc. now rewrite Hc. }
  unfold lower, sub_nonword.
  rewrite (smap_id_on lower_char _ _ token_or_space_lower Hjoin).
  rewrite (smap_id_on _ _ _ token_or_space_kept Hjoin).
  rewrite split_join.
  - apply forallb_filter_id. apply forallb_forall. intros w Hw.
    rewrite Forall_forall in H. apply Nat.ltb_lt. now apply H.
  - eapply Forall_impl; [|exact H]. intros w [Hlen Hw]. split.
    + intros ->. simpl in Hlen. lia.
    + eapply all_chars_weaken; [|exact Hw].
      intros c Hc. now rewrite (proj2 (proj2 (istoken_facts c Hc))).
Qed.

End TokenRoundTrip.

(** X15. The tokens of a text, joined by single spaces, tokenize to
    themselves: tokenizing is idempotent. *)
Theorem tokenize_round_trip (text : string) :
  BM25.tokenize (Text.join " " (BM25.tokenize text)) = BM25.tokenize text.
Proof.
  apply tokenize_of_tokens. apply Forall_forall. intros w Hw.
  now apply tokenize_chars in Hw.
Qed.

(* ================================================================== *)
(** * The hits of the booster *)

Lemma row_matches_iff (query : string) (search_cols : list string)
      (row : Row) :
  row_matches query search_cols row = true
  <-> exists col value pre post,
      In col search_cols
      /\ Dict.get row col = Some value
      /\ Text.lower value
         = (pre ++ Text.lower query ++ post)%string.
Proof.
  unfold row_matches. rewrite existsb_exists. split.
  - intros (col & Hcol & H). apply andb_prop in H. destruct H as [Hm Hp].
    unfold Dict.mem, Dict.get_or in *.
    destruct (Dict.get row col) as [value|] eqn:E; [|discriminate Hm].
    unfold pattern_search in Hp. apply contains_iff in Hp.
    destruct Hp as (pre & post & Hp).
    now exists col, value, pre, post.
  - intros (col & value & pre & post & Hcol & Hget & Hp).
    exists col. split; [exact Hcol|].
    unfold Dict.mem, Dict.get_or. rewrite Hget. simpl.
    unfold pattern_search. apply contains_iff. now exists pre, post.
Qed.

Lemma regex_hits_sorted (query : string) (search_cols : list string)
      (data : list Row) (start : nat) :
  StronglySorted lt
    (map fst
       (flat_map (fun entry : nat * Row =>
                    if row_matches query search_cols (snd entry)
                    then [(fst entry, 100%R)] else [])
                 (combine (seq start (length data)) data))).
Proof.
  revert start. induction data as [|row data IH]; intros start; simpl;
    [constructor|].
  pose proof (proj1 (regex_hits_from query search_cols data (S start)))
    as Htail.
  destruct (row_matches query search_cols row); simpl; [|apply IH].
  constructor; [apply IH|].
  apply Forall_forall. intros i Hi. apply in_map_iff in Hi.
  destruct Hi as ([i' s] & Heq & Hi). simpl in Heq. subst i'.
  apply Htail in Hi. lia.
Qed.

(** X16. The booster returns, in ascending position order and once
    each, exactly the rows in which some search column that the row has
    holds the query as a substring, letter case apart; every hit has
    score 100. *)
Theorem regex_search_hits (data : list Row) (query : string)
        (search_cols : list string) :
  (forall i s,
      In (i, s) (regex_search data query search_cols)
      <-> s = 100%R
          /\ exists row col value pre post,
              nth_error data i = Some row
              /\ In col search_cols
              /\ Dict.get row col = Some value
              /\ Text.lower value
                 = (pre ++ Text.lower query ++ post)%string)
  /\ StronglySorted lt (map fst (regex_search data query search_cols)).
Proof.
  split; [|apply (regex_hits_sorted query search_cols data 0)].
  intros i s. rewrite regex_search_in. unfold exact_at. split.
  - intros [Hs Hm]. split; [exact Hs|].
    destruct (nth_error data i) as [row|]; [|discriminate Hm].
    apply row_matches_iff in Hm.
    destruct Hm as (col & value & pre & post & H).
    now exists row, col, value, pre, post.
  - intros [Hs (row & col & value & pre & post & Hnth & H)].
    split; [exact Hs|]. rewrite Hnth. apply row_matches_iff.
    now exists col, value, pre, post.
Qed.

(* ================================================================== *)
(** * Saturation *)

Section Saturation.

Import BM25.
Local Open Scope R_scope.

Lemma fraction_below_one (t K : R) : 0 <= t -> 0 < K -> t / (t + K) < 1.
Proof.
  intros Ht HK. apply (Rmult_lt_reg_r (t + K)); [lra|].
  unfold Rdiv. rewrite Rmult_assoc, Rinv_l by lra. lra.
Qed.

End Saturation.

(** X17. The score saturates: for a fitted index, whatever the term
    frequency and the length of the document, one query token with idf
    entry [i] adds to the score a value from 0 up to, but less than,
    [2.5 * i]; a token without idf entry adds nothing. *)
Theorem score_token_saturates (documents : list string) :
  exists bm,
    BM25.fit BM25.new documents = Ok bm
    /\ forall (doc_len : nat) (tfs : Dict.t nat) (s : R) (token : string),
        exists r,
          BM25.score_token bm doc_len tfs s token = Ok (s + r)%R
          /\ match Dict.get (BM25.idf bm) token with
             | Some i => (0 <= r < 2.5 * i)%R
             | None => r = 0%R
             end.
Proof.
  destruct (fit_new documents) as (bm & Hfit & Hfresh).
  exists bm. split; [exact Hfit|]. intros doc_len tfs s token.
  rewrite (score_token_any documents bm Hfresh).
  eexists. split; [reflexivity|].
  pose proof (fresh_idf _ _ Hfresh token) as Hidf.
  destruct (Dict.get (BM25.idf bm) token) as [i|]; [|reflexivity].
  destruct (0 <? df_count (BM25.corpus bm) token) eqn:E; [|discriminate].
  injection Hidf as ->. apply Nat.ltb_lt in E.
  pose proof (fresh_avgdl_pos documents bm Hfresh token E) as Ha.
  assert (Hi : (0 < idf_value (BM25.N bm)
                              (df_count (BM25.corpus bm) token))%R).
  { apply idf_value_pos. rewrite (fresh_N _ _ Hfresh).
    rewrite <- (fresh_length_corpus documents bm Hfresh).
    apply df_count_le. }
  revert Hi.
  generalize (idf_value (BM25.N bm) (df_count (BM25.corpus bm) token)).
  intros i Hi. unfold term_score.
  pose proof (denominator_pos documents bm Hfresh 0 doc_len Ha) as HK.
  simpl INR in HK. rewrite Rplus_0_l in HK.
  pose proof (fresh_k1 _ _ Hfresh) as Hk.
  set (k := BM25.k1 bm) in *.
  set (K := (k * (1 - BM25.b bm
                  + BM25.b bm * INR doc_len / BM25.avgdl bm))%R) in *.
  set (t := INR (Dict.get_or tfs token 0)).
  assert (Ht : (0 <= t)%R) by apply pos_INR.
  pose proof (fraction_below_one t K Ht HK) as Hlt.
  assert (Hge : (0 <= t / (t + K))%R).
  { apply Rmult_le_pos; [exact Ht|]. left. apply Rinv_0_lt_compat. lra. }
  replace (i * (t * (k + 1)) / (t + K))%R
    with ((k + 1) * i * (t / (t + K)))%R by (unfold Rdiv; ring).
  replace (k + 1)%R with 2.5%R by lra.
  split.
  - apply Rmult_le_pos; [lra | exact Hge].
  - rewrite <- (Rmult_1_r (2.5 * i)) at 2.
    apply Rmult_lt_compat_l; [lra | exact Hlt].
Qed.

(* ================================================================== *)
(** * An exact match in front of an admitted BM25 row *)

Section WaveTable.

Local Open Scope R_scope.

(** The BM25 score of the second row of [wave_table] for the query
    retro wave: positive, and far below 150. *)
Lemma wave_score (bm : BM25.t) :
  fresh_index (map (doc_text ["Name"]) wave_table) bm ->
  0 < doc_score bm ["retro"; "wave"] ["wave"; "retro"] <= 150.
Proof.
  intros H.
  assert (HC : BM25.corpus bm = [["retro"; "wave"]; ["wave"; "retro"]])
    by (rewrite (fresh_corpus _ _ H); vm_compute; reflexivity).
  assert (HN : (BM25.N bm = 2)%nat)
    by (rewrite (fresh_N _ _ H); reflexivity).
  assert (Hr : (df_count (BM25.corpus bm) "retro" = 2)%nat)
    by (rewrite HC; vm_compute; reflexivity).
  assert (Hw : (df_count (BM25.corpus bm) "wave" = 2)%nat)
    by (rewrite HC; vm_compute; reflexivity).
  assert (Hs : (list_sum (BM25.doc_lengths bm) = 4)%nat)
    by (rewrite (fresh_lengths _ _ H), HC; reflexivity).
  assert (Htr : (tf_count ["wave"; "retro"] "retro" = 1)%nat)
    by (vm_compute; reflexivity).
  assert (Htw : (tf_count ["wave"; "retro"] "wave" = 1)%nat)
    by (vm_compute; reflexivity).
  unfold doc_score. cbn [fold_left]. unfold contribution.
  rewrite !(fresh_idf _ _ H). rewrite Hr, Hw, HN. cbn [Nat.ltb Nat.leb].
  rewrite Htr, Htw. cbn [length]. unfold term_score.
  rewrite (fresh_k1 _ _ H), (fresh_b _ _ H), (fresh_avgdl _ _ H).
  rewrite HN, Hs. cbn [Nat.eqb].
  assert (Hpos : 0 < idf_value 2 2) by (apply idf_value_pos; lia).
  assert (Hle : idf_value 2 2 <= 1 / 5).
  { unfold idf_value. rewrite !INR_lit. simpl Z.of_nat.
    etransitivity; [apply ln_le_sub1; lra | lra]. }
  revert Hpos Hle. generalize (idf_value 2 2) as i. intros i Hpos Hle.
  rewrite !INR_lit. simpl Z.of_nat.
  replace (1 + 1.5 * (1 - 0.75 + 0.75 * 2 / (4 / 2))) with 2.5 by lra.
  lra.
Qed.

End WaveTable.

(** The claim of [exact_match_precedence] on [wave_table] for the query
    retro wave: the first row holds the query literally, the second row
    is admitted with a positive BM25 score below 150, and the first row
    stands in front of it. *)
Lemma exact_match_precedence_witness :
  exists l sb,
    ranked wave_table ["Name"] "retro wave" = Ok l
    /\ In (0, 150%R) l
    /\ In (1, sb) l
    /\ (0 < sb <= 150)%R
    /\ before (0, 150%R) (1, sb) l.
Proof.
  destruct (fit_new (map (doc_text ["Name"]) wave_table))
    as (bm & Hfit & Hfresh).
  pose proof (wave_score bm Hfresh) as Hsb.
  set (sb := doc_score bm ["retro"; "wave"] ["wave"; "retro"]) in *.
  destruct (exact_match_precedence wave_table ["Name"] "retro wave" 0 1 sb
                                   eq_refl eq_refl)
    as (l & Hr & HA & Hbefore & _).
  destruct (merge_admission wave_table ["Name"] "retro wave")
    as (bm' & l' & Hfit' & Hr' & _ & Hin).
  rewrite Hfit in Hfit'. injection Hfit' as <-.
  rewrite Hr in Hr'. injection Hr' as <-.
  assert (HB : In (1, sb) l).
  { apply Hin. right. split; [reflexivity|]. split; [apply Hsb|].
    exists ["wave"; "retro"]. split; [|reflexivity].
    rewrite (fresh_corpus _ _ Hfresh). reflexivity. }
  exists l, sb. split; [exact Hr|]. split; [exact HA|].
  split; [exact HB|]. split; [exact Hsb|].
  apply Hbefore; [exact HB | apply Hsb].
Defined.

(* ================================================================== *)
(** * The outcomes of the entry points *)

(** Over files that all load, the entry points are those of the storage
    model. *)
Lemma search_domain_io_agrees (fs : Storage) (query domain : string)
      (max_results : Z) :
  search_domain_io (files_of fs) query domain max_results
  = of_result (search_domain fs query domain max_results).
Proof.
  unfold search_domain_io, search_domain.
  destruct (Dict.get CSV_CONFIG domain) as [config|]; [|reflexivity].
  change (files_path (files_of fs) (file config))
    with (path fs (file config)).
  change (file_exists (files_of fs)) with (exists_ fs).
  destruct (negb (exists_ fs (path fs (file config)))); reflexivity.
Qed.

Lemma search_io_agrees (fs : Storage) (query : string)
      (domain : option string) (max_results : Z) :
  search_io (files_of fs) query domain max_results
  = of_result (search fs query domain max_results).
Proof.
  unfold search_io, search.
  destruct (match domain with
            | Some d => Ok d
            | None => detect_domain query
            end) as [d|e]; [|reflexivity].
  cbn [bind].
  change (files_path (files_of fs)
                     (file (Dict.get_or CSV_CONFIG d style_config)))
    with (path fs (file (Dict.get_or CSV_CONFIG d style_config))).
  change (file_exists (files_of fs)) with (exists_ fs).
  destruct (negb (exists_ fs _)); [reflexivity|].
  rewrite search_domain_io_agrees.
  destruct (search_domain fs query d max_results); reflexivity.
Qed.

Lemma search_stack_io_agrees (fs : Storage) (query stack : string)
      (max_results : Z) :
  search_stack_io (files_of fs) query stack max_results
  = of_result (search_stack fs query stack max_results).
Proof.
  unfold search_stack_io, search_stack.
  destruct (Dict.get STACK_CONFIG stack) as [config|]; [|reflexivity].
  change (files_path (files_of fs) (file config))
    with (path fs (file config)).
  change (file_exists (files_of fs)) with (exists_ fs).
  destruct (negb (exists_ fs (path fs (file config)))); [reflexivity|].
  cbn [read_csv files_of].
  destruct (search_rows _ _ _ _ _); reflexivity.
Qed.



(** An undecodable file of a configured table: the exception of
    [load_csv] leaves [search] and [search_stack]. *)
Example load_error_propagates :
  search_io (demo_files "styles.csv") "retro" (Some "style") 5
  = LoadRaises UnicodeDecodeError
  /\ search_stack_io (demo_files "stacks/react.csv") "retro" "react" 5
     = LoadRaises UnicodeDecodeError.
Proof. split; reflexivity. Qed.
